(** * Apsemo: offline cache and status resolution

    A shallow embedding of the two parts of the application that carry state
    and invariants:

    - the IndexedDB wrapper service ([cacheData], [getCachedData],
      [clearCache], ...), and
    - the status resolution of [DashboardPage.fetchData] together with the
      offline load and the status form of [StatusUpdatePage].

    JavaScript [Map]s and plain objects used as dictionaries iterate in
    insertion order, which the arrays built from them expose; they are
    modelled by insertion-ordered association lists ([JsMap]).  IndexedDB
    object stores are keyed and are only read back as a whole, so they are
    finite maps ([gmap]). *)

From Stdlib Require Import ZArith QArith Sorted Lia Lqa.
From stdpp Require Import gmap strings list fin_maps pretty.

Open Scope string_scope.
Open Scope Z_scope.
Open Scope nat_scope.
Open Scope list_scope.

(** ** types.ts *)

(** [ResidentStatus = 'Safe' | 'Evacuated' | 'Injured' | 'Missing' |
    'Deceased' | 'Unknown'] *)
Inductive ResidentStatus :=
  | Safe | Evacuated | Injured | Missing | Deceased | Unknown.

#[global] Instance ResidentStatus_eq_dec : EqDecision ResidentStatus.
Proof. solve_decision. Defined.

Inductive EventStatus := Active | Monitoring | Resolved.

#[global] Instance EventStatus_eq_dec : EqDecision EventStatus.
Proof. solve_decision. Defined.

(** [DisasterEvent]; the fields the core never reads are left out. *)
Record DisasterEvent := {
  event_id : string;
  event_name : string;
  event_status : EventStatus;
}.

(** [Resident].  [res_status] is the optional [status?: ResidentStatus]:
    [None] is JavaScript's [undefined]. *)
Record Resident := {
  res_id : string;
  first_name : string;
  last_name : string;
  municipality : string;
  barangay : string;
  head_of_family_name : option string;
  res_status : option ResidentStatus;
}.

(** [EvacuationCenter].  [capacity] is a JavaScript number filled from
    [parseInt(value, 10) || 0], hence any integer. *)
Record EvacuationCenter := {
  center_id : string;
  center_name : string;
  center_barangay : string;
  capacity : Z;
}.

(** [Database['public']['Tables']['resident_status_log']['Row']], without
    the serial [id] that nothing reads.  The [timestamp] column is a time the
    server fills in on insert and keeps to the microsecond; the field holds
    it in microseconds since the epoch.  [row_evac_center_id = None] is
    [null]. *)
Record LogRow := {
  row_resident_id : string;
  row_status : ResidentStatus;
  row_event_id : string;
  row_timestamp : Z;
  row_evac_center_id : option string;
}.

(** The [LogEntry] type local to [fetchData]: the four selected columns. *)
Record LogEntry := {
  resident_id : string;
  status : ResidentStatus;
  timestamp : Z;
  evac_center_id : option string;
}.

(** [new Date(timestamp).getTime()]: the time in milliseconds since the
    epoch, which is all a [Date] holds of a timestamp; what the timestamp has
    below the millisecond is cut off. *)
Definition getTime (timestamp : Z) : Z := (timestamp / 1000)%Z.
Arguments getTime : simpl never.

(** Truthiness of a [string | null] value: [null] and the empty string are
    falsy. *)
Definition truthy (o : option string) : bool :=
  match o with
  | Some s => negb (String.eqb s "")
  | None => false
  end.

(** ** Insertion-ordered dictionaries *)

Module JsMap.
Section defs.
Context {V : Type}.

(** [Map.prototype.get] / [obj[k]] *)
Fixpoint get (k : string) (m : list (string * V)) : option V :=
  match m with
  | [] => None
  | (k', v) :: m' => if decide (k = k') then Some v else get k m'
  end.

(** [Map.prototype.set] / [obj[k] = v]: an existing key keeps its place,
    a new key goes last. *)
Fixpoint set (k : string) (v : V) (m : list (string * V)) : list (string * V) :=
  match m with
  | [] => [(k, v)]
  | (k', v') :: m' =>
      if decide (k = k') then (k, v) :: m' else (k', v') :: set k v m'
  end.

(** [Array.from(m.values())] / [Object.values(obj)] *)
Definition values (m : list (string * V)) : list V := m.*2.

Definition keys (m : list (string * V)) : list string := m.*1.
End defs.
End JsMap.

(** ** DashboardPage.fetchData, step 3: latest status per resident *)

(** The body of [logs.forEach(...)]: the held entry is replaced only by an
    entry whose [getTime()] is strictly greater. *)
Definition latest_step (m : list (string * LogEntry)) (log : LogEntry)
  : list (string * LogEntry) :=
  match JsMap.get (resident_id log) m with
  | None => JsMap.set (resident_id log) log m
  | Some existing =>
      if bool_decide (getTime (timestamp existing) < getTime (timestamp log))%Z
      then JsMap.set (resident_id log) log m
      else m
  end.

Definition latestStatusMap (logs : list LogEntry) : list (string * LogEntry) :=
  foldl latest_step [] logs.

(** ** DashboardPage.fetchData, step 4: counts and groups *)

(** The key of a status in the [stats] and [statusGroups] objects. *)
Definition status_name (s : ResidentStatus) : string :=
  match s with
  | Safe => "Safe"
  | Evacuated => "Evacuated"
  | Injured => "Injured"
  | Missing => "Missing"
  | Deceased => "Deceased"
  | Unknown => "Unknown"
  end.

Definition all_statuses : list ResidentStatus :=
  [Safe; Evacuated; Injured; Missing; Deceased; Unknown].

(** [{ Safe: 0, Evacuated: 0, Injured: 0, Missing: 0, Deceased: 0, Unknown: 0 }] *)
Definition zeroStats : list (string * nat) :=
  (λ s, (status_name s, 0)) <$> all_statuses.

(** [{ Safe: [], Evacuated: [], Injured: [], Missing: [], Deceased: [], Unknown: [] }] *)
Definition emptyGroups : list (string * list string) :=
  (λ s, (status_name s, [])) <$> all_statuses.

(** [if (!obj[k]) obj[k] = []] *)
Definition ensure (k : string) (m : list (string * list string))
  : list (string * list string) :=
  match JsMap.get k m with
  | Some _ => m
  | None => JsMap.set k [] m
  end.

(** [obj[k].push(x)] on a key that holds an array; the array is shared, so
    the push shows through the object. *)
Definition push (k x : string) (m : list (string * list string))
  : list (string * list string) :=
  match JsMap.get k m with
  | Some l => JsMap.set k (l ++ [x]) m
  | None => m
  end.

(** [log.status === 'Evacuated' && log.evac_center_id] *)
Definition in_center (log : LogEntry) : option string :=
  if bool_decide (status log = Evacuated) && truthy (evac_center_id log)
  then evac_center_id log else None.

Record Tally := {
  newStats : list (string * nat);
  newGroups : list (string * list string);
  newEvacGroups : list (string * list string);
}.

(** The body of [latestLogs.forEach(log => ...)]. *)
Definition tally_step (t : Tally) (log : LogEntry) : Tally :=
  let k := status_name (status log) in
  {| newStats :=
       match JsMap.get k (newStats t) with
       | Some n => JsMap.set k (S n) (newStats t)
       | None => newStats t
       end;
     newGroups := push k (resident_id log) (ensure k (newGroups t));
     newEvacGroups :=
       match in_center log with
       | Some c => push c (resident_id log) (ensure c (newEvacGroups t))
       | None => newEvacGroups t
       end |}.

Definition tally (latestLogs : list LogEntry) : Tally :=
  foldl tally_step
    {| newStats := zeroStats; newGroups := emptyGroups; newEvacGroups := [] |}
    latestLogs.

(** [new Set(latestLogs.map(l => l.resident_id))] *)
Definition knownIds (latestLogs : list LogEntry) : gset string :=
  list_to_set (resident_id <$> latestLogs).

(** [residentIds.filter(id => !knownIds.has(id))] *)
Definition unknownIds (residentIds : list string) (latestLogs : list LogEntry)
  : list string :=
  filter (λ id, id ∉ knownIds latestLogs) residentIds.

(** ** DashboardPage.fetchData, step 5: evacuation center statistics *)

Record EvacStat := {
  stat_id : string;
  stat_name : string;
  occupancy : nat;
  stat_capacity : Z;
}.

(** [occupancyMap.set(c, (occupancyMap.get(c) || 0) + 1)] for every latest
    entry that is Evacuated in a center. *)
Definition occupancy_step (m : list (string * nat)) (log : LogEntry)
  : list (string * nat) :=
  match in_center log with
  | Some c => JsMap.set c (default 0 (JsMap.get c m) + 1) m
  | None => m
  end.

Definition occupancyMap (latestLogs : list LogEntry) : list (string * nat) :=
  foldl occupancy_step [] latestLogs.

Definition center_stat (occ : list (string * nat)) (c : EvacuationCenter)
  : EvacStat :=
  {| stat_id := center_id c;
     stat_name := center_name c;
     occupancy := default 0 (JsMap.get (center_id c) occ);
     stat_capacity := capacity c |}.

(** [d => d.capacity > 0 || d.occupancy > 0] *)
Definition shown (d : EvacStat) : bool :=
  bool_decide (0 < stat_capacity d)%Z || bool_decide (0 < occupancy d).

(** [a.capacity > 0 ? a.occupancy / a.capacity : 0].  The quotient of the two
    doubles is taken as the exact ratio: for counts and capacities below
    2^26 two different ratios never round to the same double, so the sign of
    the comparator below is the sign the code computes. *)
Definition fill_ratio (d : EvacStat) : Q :=
  if bool_decide (0 < stat_capacity d)%Z
  then (Z.of_nat (occupancy d) # Z.to_pos (stat_capacity d))%Q
  else 0%Q.

(** The comparator [(a, b) => pB - pA]. *)
Definition by_ratio_desc (a b : EvacStat) : Q :=
  (fill_ratio b - fill_ratio a)%Q.

(** [Array.prototype.sort(cmp)].  The sort is stable, and for a comparator
    that orders the elements consistently its result is the one stable
    sorted arrangement, which insertion from the right computes: [x] is put
    before [y] when [cmp(x, y) <= 0]. *)
Fixpoint sort_insert {A} (cmp : A → A → Q) (x : A) (l : list A) : list A :=
  match l with
  | [] => [x]
  | y :: l' =>
      if Qle_bool (cmp x y) 0 then x :: l else y :: sort_insert cmp x l'
  end.

Definition array_sort {A} (cmp : A → A → Q) (l : list A) : list A :=
  foldr (sort_insert cmp) [] l.

Definition evacChartData (centers : list EvacuationCenter)
    (latestLogs : list LogEntry) : list EvacStat :=
  array_sort by_ratio_desc
    (filter (λ d, shown d = true)
       (center_stat (occupancyMap latestLogs) <$> centers)).

(** ** The remote store, as [fetchData] queries it *)

(** The tables behind [supabase.from(...)].  A query answers
    [{ data, error }]; the [_error] flags say which queries answer with an
    error.  [residents_count] is the [count] the store reports for the
    residents that match a municipality and a barangay filter, [None] for
    [null]: the store counts on its own, whatever rows it returns. *)
Record Backend := {
  events : list DisasterEvent;
  residents : list Resident;
  resident_status_log : list LogRow;
  evacuation_centers : list EvacuationCenter;
  residents_count : string → string → option nat;
  events_error : bool;
  residents_error : bool;
  status_log_error : bool;
  centers_error : bool;
}.

(** [from('events').select('*').eq('status', 'Active').limit(1).single()]:
    [None] stands for [eventError || !eventData] ([single] answers with an
    error when no row matches). *)
Definition select_active_event (b : Backend) : option DisasterEvent :=
  if events_error b then None
  else List.find (λ e, bool_decide (event_status e = Active)) (events b).

(** [from('residents').select('id', { count: 'exact' })] with the optional
    [.eq('municipality', ...)] and [.eq('barangay', ...)]: the [data] of the
    answer. *)
Definition select_resident_ids (b : Backend)
    (filterMunicipality filterBarangay : string) : option (list string) :=
  if residents_error b then None
  else Some (res_id <$>
    filter (λ r, (filterMunicipality = "all" ∨ municipality r = filterMunicipality)
               ∧ (filterBarangay = "all" ∨ barangay r = filterBarangay))
      (residents b)).

(** The [count] of the same answer: what the store reports; an answer
    without rows is the answer to a query that nothing matches, and counts
    none. *)
Definition count_resident_ids (b : Backend)
    (filterMunicipality filterBarangay : string) : option nat :=
  match select_resident_ids b filterMunicipality filterBarangay with
  | Some [] => Some 0
  | _ => residents_count b filterMunicipality filterBarangay
  end.

Definition entry_of_row (r : LogRow) : LogEntry :=
  {| resident_id := row_resident_id r;
     status := row_status r;
     timestamp := row_timestamp r;
     evac_center_id := row_evac_center_id r |}.

(** The rows [.eq('event_id', eventId).in('resident_id', residentIds)] keeps. *)
Definition log_rows_for (eventId : string) (residentIds : list string)
    (table : list LogRow) : list LogRow :=
  filter (λ r, row_event_id r = eventId ∧ row_resident_id r ∈ residentIds) table.

(** [from('resident_status_log').select('resident_id, status, timestamp,
    evac_center_id').eq('event_id', eventId).in('resident_id', residentIds)] *)
Definition select_status_log (b : Backend) (eventId : string)
    (residentIds : list string) : option (list LogEntry) :=
  if status_log_error b then None
  else Some (entry_of_row <$> log_rows_for eventId residentIds (resident_status_log b)).

(** [from('evacuation_centers').select('id, name, capacity')] *)
Definition select_centers (b : Backend) : option (list EvacuationCenter) :=
  if centers_error b then None else Some (evacuation_centers b).

(** ** DashboardPage: component state and fetchData *)

Inductive ToastKind := ToastSuccess | ToastError.

Inductive Effect :=
  | ConsoleLog (msg : string)
  | ShowToast (msg : string) (kind : ToastKind).

(** The [useState] cells [fetchData] writes.  [totalAffected = None] is the
    initial ['...']. *)
Record DashboardState := {
  activeEvent : option DisasterEvent;
  stats : list (string * nat);
  statusGroups : list (string * list string);
  evacCenterGroups : list (string * list string);
  evacStats : list EvacStat;
  totalAffected : option nat;
  allAffectedIds : list string;
  isLoading : bool;
}.

Definition initialDashboard : DashboardState :=
  {| activeEvent := None;
     stats := zeroStats;
     statusGroups := [];
     evacCenterGroups := [];
     evacStats := [];
     totalAffected := None;
     allAffectedIds := [];
     isLoading := true |}.

Definition setIsLoading (v : bool) (st : DashboardState) : DashboardState :=
  {| activeEvent := activeEvent st; stats := stats st;
     statusGroups := statusGroups st; evacCenterGroups := evacCenterGroups st;
     evacStats := evacStats st; totalAffected := totalAffected st;
     allAffectedIds := allAffectedIds st; isLoading := v |}.

Definition setActiveEvent (v : DisasterEvent) (st : DashboardState) : DashboardState :=
  {| activeEvent := Some v; stats := stats st;
     statusGroups := statusGroups st; evacCenterGroups := evacCenterGroups st;
     evacStats := evacStats st; totalAffected := totalAffected st;
     allAffectedIds := allAffectedIds st; isLoading := isLoading st |}.

Definition setTotalAffected (v : nat) (st : DashboardState) : DashboardState :=
  {| activeEvent := activeEvent st; stats := stats st;
     statusGroups := statusGroups st; evacCenterGroups := evacCenterGroups st;
     evacStats := evacStats st; totalAffected := Some v;
     allAffectedIds := allAffectedIds st; isLoading := isLoading st |}.

Definition setAllAffectedIds (v : list string) (st : DashboardState)
  : DashboardState :=
  {| activeEvent := activeEvent st; stats := stats st;
     statusGroups := statusGroups st; evacCenterGroups := evacCenterGroups st;
     evacStats := evacStats st; totalAffected := totalAffected st;
     allAffectedIds := v; isLoading := isLoading st |}.

(** [setStats(s); setStatusGroups(g); setEvacCenterGroups(e)] *)
Definition setResolution (s : list (string * nat)) (g e : list (string * list string))
    (st : DashboardState) : DashboardState :=
  {| activeEvent := activeEvent st; stats := s;
     statusGroups := g; evacCenterGroups := e;
     evacStats := evacStats st; totalAffected := totalAffected st;
     allAffectedIds := allAffectedIds st; isLoading := isLoading st |}.

Definition setEvacStats (v : list EvacStat) (st : DashboardState) : DashboardState :=
  {| activeEvent := activeEvent st; stats := stats st;
     statusGroups := statusGroups st; evacCenterGroups := evacCenterGroups st;
     evacStats := v; totalAffected := totalAffected st;
     allAffectedIds := allAffectedIds st; isLoading := isLoading st |}.

(** Steps 3 to 5 of [fetchData], once the ids and the log rows are there. *)
Definition resolve (b : Backend) (residentIds : list string)
    (logs : list LogEntry) (st : DashboardState) : DashboardState :=
  let latestLogs := JsMap.values (latestStatusMap logs) in
  let t := tally latestLogs in
  let unknown := unknownIds residentIds latestLogs in
  let st := setResolution
              (JsMap.set "Unknown" (length unknown) (newStats t))
              (JsMap.set "Unknown" unknown (newGroups t))
              (newEvacGroups t) st in
  match select_centers b with
  | Some centers => setEvacStats (evacChartData centers latestLogs) st
  | None => st
  end.

(** [(count as number) || 0] *)
Definition affectedCount (b : Backend) (filterMunicipality filterBarangay : string)
  : nat :=
  default 0 (count_resident_ids b filterMunicipality filterBarangay).

(** [fetchData]: the effects it performs and the state it leaves. *)
Definition fetchData (b : Backend) (filterMunicipality filterBarangay : string)
    (st : DashboardState) : list Effect * DashboardState :=
  match select_active_event b with
  | None => ([ConsoleLog "No active events found."], setIsLoading false st)
  | Some eventData =>
      let st := setActiveEvent eventData st in
      match select_resident_ids b filterMunicipality filterBarangay with
      | None =>
          ([ShowToast "Error fetching residents data" ToastError],
           setIsLoading false st)
      | Some residentIds =>
          let affectedCount := affectedCount b filterMunicipality filterBarangay in
          let st := setAllAffectedIds residentIds (setTotalAffected affectedCount st) in
          if bool_decide (length residentIds = 0) then
            ([], setIsLoading false
                   (setEvacStats []
                      (setResolution
                         (JsMap.set "Unknown" affectedCount zeroStats)
                         [("Unknown", [])] [] st)))
          else
            match select_status_log b (event_id eventData) residentIds with
            | None =>
                ([ShowToast "Error fetching status logs" ToastError],
                 setIsLoading false st)
            | Some logs => ([], setIsLoading false (resolve b residentIds logs st))
            end
      end
  end.

(** ** DashboardPage.handleStatClick: the status shown for a resident *)

(** The loop over [Object.entries(statusGroups)] in the ['Affected Pop.']
    list: the first group that includes the id names the status, and
    ['Unknown'] is the default. *)
Definition foundStatus (groups : list (string * list string)) (id : string)
  : string :=
  match List.find (λ kv, bool_decide (id ∈ kv.2)) groups with
  | Some kv => kv.1
  | None => "Unknown"
  end.

(** ** services/dbService.ts *)

(** A promise that has settled. *)
Inductive Promise (A : Type) :=
  | Fulfilled (a : A)
  | Rejected (reason : string).
Arguments Fulfilled {A} a.
Arguments Rejected {A} reason.

(** [STORES] *)
Definition STORES : list string := ["residents"; "evac_centers"; "metadata"].

(** The key path [onupgradeneeded] gives a store: [key] for the metadata and
    [id] for the residents and the evacuation centers. *)
Definition keyPath (storeName : string) : string :=
  if decide (storeName = "metadata") then "key" else "id".

Section dbService.
(** The cached objects ([any]).  [property path item] is the key that
    [item[path]] gives, and [None] when the object has no such property or
    holds there what is no key. *)
Context {Item : Type} (property : string → Item → option string).

(** The browser's storage: whether [indexedDB.open] succeeds, and the
    object stores of ['dma-offline-db'] once it has been created. *)
Record IndexedDB := {
  openable : bool;
  database : option (gmap string (gmap string Item));
}.

(** An asynchronous operation on the storage. *)
Definition IDB (A : Type) : Type := IndexedDB → Promise A * IndexedDB.

Definition idb_bind {A B} (m : IDB A) (k : A → IDB B) : IDB B :=
  λ s, match m s with
       | (Fulfilled a, s') => k a s'
       | (Rejected r, s') => (Rejected r, s')
       end.

(** [onupgradeneeded]: every store that is missing is created. *)
Definition createStores (db : gmap string (gmap string Item))
  : gmap string (gmap string Item) :=
  foldl (λ d name, match d !! name with
                   | Some _ => d
                   | None => <[name := ∅]> d
                   end) db STORES.

(** The object stores an open finds: those of the database, which the first
    open creates. *)
Definition opened (s : IndexedDB) : gmap string (gmap string Item) :=
  match database s with
  | Some db => db
  | None => createStores ∅
  end.

(** [openDB].  The module keeps the handle of its first open in [db]; as
    [openable] does not change, asking it at each call comes to the same. *)
Definition openDB : IDB (gmap string (gmap string Item)) :=
  λ s, if openable s
       then (Fulfilled (opened s), {| openable := true; database := Some (opened s) |})
       else (Rejected "Error opening IndexedDB.", s).

(** What one read-write transaction leaves when it completes.  A commit that
    fails ([transaction.onerror]) is not modelled. *)
Definition commit (db : gmap string (gmap string Item)) : IDB unit :=
  λ s, (Fulfilled (), {| openable := openable s; database := Some db |}).

(** [db.transaction(names, mode)] throws when a store does not exist. *)
Definition transaction {A} (names : list string)
    (db : gmap string (gmap string Item)) (body : IDB A) : IDB A :=
  λ s, if bool_decide (Forall (λ n, is_Some (db !! n)) names)
       then body s
       else (Rejected "NotFoundError", s).

(** [store.put(item)] on a store with the key path [path]: the object goes
    under the key it carries there, in the place of an object that has the
    same key; for an object without a key [put] throws a [DataError], which is
    [None]. *)
Definition put (path : string) (item : Item) (store : gmap string Item)
  : option (gmap string Item) :=
  (λ key, <[key := item]> store) <$> property path item.

(** [data.forEach(item => store.put(item))]: the store the requests lead to,
    and whether a [put] threw, which ends the loop. *)
Fixpoint putAll (path : string) (data : list Item) (store : gmap string Item)
  : bool * gmap string Item :=
  match data with
  | [] => (false, store)
  | item :: data' =>
      match put path item store with
      | Some store' => putAll path data' store'
      | None => (true, store)
      end
  end.

(** [store.clear(); data.forEach(item => store.put(item))] *)
Definition replaceAll (path : string) (data : list Item) : bool * gmap string Item :=
  putAll path data ∅.

(** [cacheData].  An exception inside the executor rejects the promise; the
    requests made up to there stay in the transaction, which completes with
    them. *)
Definition cacheData (storeName : string) (data : list Item) : IDB unit :=
  idb_bind openDB (λ db,
    transaction [storeName] db
      (λ s, let '(threw, store) := replaceAll (keyPath storeName) data in
            (if threw then Rejected "DataError" else Fulfilled (),
             {| openable := openable s;
                database := Some (<[storeName := store]> db) |}))).

(** [store.getAll()]: every object of the store, one per key.  The browser
    lists them by ascending key; the order plays no part in what follows. *)
Definition getAll (store : gmap string Item) : list Item :=
  (map_to_list store).*2.

Definition getCachedData (storeName : string) : IDB (list Item) :=
  idb_bind openDB (λ db,
    transaction [storeName] db
      (λ s, (Fulfilled (getAll (default ∅ (db !! storeName))), s))).

(** [store.get(key)] on the metadata store. *)
Definition getMetadata (key : string) : IDB (option Item) :=
  idb_bind openDB (λ db,
    transaction ["metadata"] db
      (λ s, (Fulfilled (default ∅ (db !! "metadata") !! key), s))).

Definition clearCache : IDB unit :=
  idb_bind openDB (λ db,
    transaction STORES db
      (commit (<["metadata" := ∅]> (<["evac_centers" := ∅]> (<["residents" := ∅]> db))))).
End dbService.

Arguments IndexedDB : clear implicits.
Arguments IDB : clear implicits.

(** One operation after another: a rejection ends the sequence. *)
Notation "m ;;; k" := (idb_bind m (λ _, k))
  (at level 100, k at level 200, right associativity).

(** ** What the offline cache holds *)

(** The objects [AuthPage.handleDownload] and [setMetadata] put into the
    stores. *)
Inductive CachedItem :=
  | ResidentItem (r : Resident)
  | CenterItem (c : EvacuationCenter)
  | MetadataItem (key value : string).

(** What the objects have at the two key paths: a resident and a center have
    an [id], the metadata object has a [key]. *)
Definition item_property (path : string) (i : CachedItem) : option string :=
  match i with
  | ResidentItem r => if decide (path = "id") then Some (res_id r) else None
  | CenterItem c => if decide (path = "id") then Some (center_id c) else None
  | MetadataItem key _ => if decide (path = "key") then Some key else None
  end.


(** [getCachedData<Resident>(...)]: the objects of the store read as
    residents. *)
Definition as_resident (i : CachedItem) : option Resident :=
  match i with ResidentItem r => Some r | _ => None end.

(** [getCachedData<EvacuationCenter>(...)] *)
Definition as_center (i : CachedItem) : option EvacuationCenter :=
  match i with CenterItem c => Some c | _ => None end.

(** ** StatusUpdatePage *)

Record StatusPage := {
  page_activeEvent : option DisasterEvent;
  allResidents : list Resident;
  evacCenters : list EvacuationCenter;
  selectedResident : option Resident;
  familyMembers : list Resident;
  newStatus : ResidentStatus;
  evacCenterId : string;
  page_isLoading : bool;
}.

(** The initial [useState] values. *)
Definition initialStatusPage : StatusPage :=
  {| page_activeEvent := None; allResidents := []; evacCenters := [];
     selectedResident := None; familyMembers := []; newStatus := Safe;
     evacCenterId := ""; page_isLoading := true |}.

(** [{ ...r, status: undefined }] *)
Definition without_status (r : Resident) : Resident :=
  {| res_id := res_id r; first_name := first_name r; last_name := last_name r;
     municipality := municipality r; barangay := barangay r;
     head_of_family_name := head_of_family_name r; res_status := None |}.

(** [res.status || 'Unknown'], the status the resident lists display. *)
Definition shown_status (r : Resident) : ResidentStatus :=
  default Unknown (res_status r).

Definition setAllResidents (rs : list Resident) (st : StatusPage) : StatusPage :=
  {| page_activeEvent := page_activeEvent st; allResidents := rs;
     evacCenters := evacCenters st; selectedResident := selectedResident st;
     familyMembers := familyMembers st; newStatus := newStatus st;
     evacCenterId := evacCenterId st; page_isLoading := page_isLoading st |}.

Definition setEvacCenters (cs : list EvacuationCenter) (st : StatusPage)
  : StatusPage :=
  {| page_activeEvent := page_activeEvent st; allResidents := allResidents st;
     evacCenters := cs; selectedResident := selectedResident st;
     familyMembers := familyMembers st; newStatus := newStatus st;
     evacCenterId := evacCenterId st; page_isLoading := page_isLoading st |}.

Definition setPageEvent (e : option DisasterEvent) (st : StatusPage)
  : StatusPage :=
  {| page_activeEvent := e; allResidents := allResidents st;
     evacCenters := evacCenters st; selectedResident := selectedResident st;
     familyMembers := familyMembers st; newStatus := newStatus st;
     evacCenterId := evacCenterId st; page_isLoading := page_isLoading st |}.

Definition setPageLoading (v : bool) (st : StatusPage) : StatusPage :=
  {| page_activeEvent := page_activeEvent st; allResidents := allResidents st;
     evacCenters := evacCenters st; selectedResident := selectedResident st;
     familyMembers := familyMembers st; newStatus := newStatus st;
     evacCenterId := evacCenterId st; page_isLoading := v |}.

(** The result of an [await] that threw: the rejection leaves the async
    function, and the browser reports it. *)
Definition uncaught (reason : string) : Effect :=
  ConsoleLog ("Uncaught (in promise) " ++ reason)%string.

(** [loadInitialData].  Online, the errors of the two table queries are not
    looked at ([data || []]).  Offline, a rejected cache read leaves the
    function before the later [set...] calls and [setIsLoading(false)]. *)
Definition loadInitialData (isOnline : bool) (b : Backend) (st : StatusPage)
    (idb : IndexedDB CachedItem)
  : list Effect * StatusPage * IndexedDB CachedItem :=
  let st := setPageLoading true st in
  if isOnline then
    match select_active_event b with
    | Some eventData =>
        let st := setPageEvent (Some eventData) st in
        let st := setAllResidents (if residents_error b then [] else residents b) st in
        let st := setEvacCenters
                    (if centers_error b then [] else evacuation_centers b) st in
        ([], setPageLoading false st, idb)
    | None => ([], setPageLoading false st, idb)
    end
  else
    let toast := ShowToast "You are offline. Showing cached data." ToastSuccess in
    match getCachedData "residents" idb with
    | (Rejected reason, idb) => ([toast; uncaught reason], st, idb)
    | (Fulfilled cachedResidents, idb) =>
        let residentsWithoutStatus :=
          without_status <$> omap as_resident cachedResidents in
        let st := setAllResidents residentsWithoutStatus st in
        match getCachedData "evac_centers" idb with
        | (Rejected reason, idb) => ([toast; uncaught reason], st, idb)
        | (Fulfilled cachedCenters, idb) =>
            let st := setEvacCenters (omap as_center cachedCenters) st in
            let st := setPageEvent None st in
            ([toast], setPageLoading false st, idb)
        end
    end.

(** [handleSelectResident] *)
Definition handleSelectResident (resident : Resident) (st : StatusPage)
  : StatusPage :=
  {| page_activeEvent := page_activeEvent st; allResidents := allResidents st;
     evacCenters := evacCenters st; selectedResident := Some resident;
     familyMembers :=
       if truthy (head_of_family_name resident)
       then filter (λ r, head_of_family_name r = head_of_family_name resident)
              (allResidents st)
       else [resident];
     newStatus := newStatus st; evacCenterId := evacCenterId st;
     page_isLoading := page_isLoading st |}.

(** The [<option>]s of the "New Status" select. *)
Inductive StatusOption :=
  | OptSafe | OptEvacuated | OptInjured | OptMissing | OptDeceased.

(** [e.target.value as ResidentStatus] *)
Definition option_value (o : StatusOption) : ResidentStatus :=
  match o with
  | OptSafe => Safe
  | OptEvacuated => Evacuated
  | OptInjured => Injured
  | OptMissing => Missing
  | OptDeceased => Deceased
  end.

Definition setNewStatus (v : ResidentStatus) (st : StatusPage) : StatusPage :=
  {| page_activeEvent := page_activeEvent st; allResidents := allResidents st;
     evacCenters := evacCenters st; selectedResident := selectedResident st;
     familyMembers := familyMembers st; newStatus := v;
     evacCenterId := evacCenterId st; page_isLoading := page_isLoading st |}.

Definition setEvacCenterId (v : string) (st : StatusPage) : StatusPage :=
  {| page_activeEvent := page_activeEvent st; allResidents := allResidents st;
     evacCenters := evacCenters st; selectedResident := selectedResident st;
     familyMembers := familyMembers st; newStatus := newStatus st;
     evacCenterId := v; page_isLoading := page_isLoading st |}.

Definition setSelectedResident (v : option Resident) (st : StatusPage)
  : StatusPage :=
  {| page_activeEvent := page_activeEvent st; allResidents := allResidents st;
     evacCenters := evacCenters st; selectedResident := v;
     familyMembers := familyMembers st; newStatus := newStatus st;
     evacCenterId := evacCenterId st; page_isLoading := page_isLoading st |}.

(** The reset after a successful insert. *)
Definition resetForm (st : StatusPage) : StatusPage :=
  {| page_activeEvent := page_activeEvent st; allResidents := allResidents st;
     evacCenters := evacCenters st; selectedResident := None;
     familyMembers := []; newStatus := Safe;
     evacCenterId := ""; page_isLoading := page_isLoading st |}.

(** [Database['public']['Tables']['resident_status_log']['Insert']] *)
Record LogInsert := {
  ins_resident_id : string;
  ins_status : ResidentStatus;
  ins_event_id : string;
  ins_evac_center_id : option string;
}.

(** What the store answers to [insert]: the rows are stored with the
    server's time, or an error comes back. *)
Inductive InsertReply :=
  | Inserted (now : Z)
  | InsertError (message : string).

Definition stored_row (now : Z) (i : LogInsert) : LogRow :=
  {| row_resident_id := ins_resident_id i; row_status := ins_status i;
     row_event_id := ins_event_id i; row_timestamp := now;
     row_evac_center_id := ins_evac_center_id i |}.

(** [from('resident_status_log').insert(rows)] when it succeeds: the table
    only grows. *)
Definition insert_status_log (now : Z) (rows : list LogInsert) (b : Backend)
  : Backend :=
  {| events := events b; residents := residents b;
     resident_status_log := resident_status_log b ++ (stored_row now <$> rows);
     evacuation_centers := evacuation_centers b;
     residents_count := residents_count b;
     events_error := events_error b; residents_error := residents_error b;
     status_log_error := status_log_error b; centers_error := centers_error b |}.

(** The rows [handleUpdateStatus] builds. *)
Definition statusLogs (selectedIds : list string) (status : ResidentStatus)
    (eventId evacCenterId : string) : list LogInsert :=
  (λ id, {| ins_resident_id := id;
            ins_status := status;
            ins_event_id := eventId;
            ins_evac_center_id :=
              if bool_decide (status = Evacuated)
              then (if truthy (Some evacCenterId) then Some evacCenterId else None)
              else None |}) <$> selectedIds.

(** [handleUpdateStatus].  [checked] holds the values of the checked
    family-member boxes of the submitted form. *)
Definition handleUpdateStatus (isOnline : bool) (checked : list string)
    (reply : InsertReply) (st : StatusPage) (b : Backend)
  : list Effect * StatusPage * Backend :=
  match selectedResident st, page_activeEvent st, isOnline with
  | Some selected, Some event, true =>
      let selectedIds :=
        if bool_decide (1 < length (familyMembers st))
        then checked else [res_id selected] in
      if bool_decide (1 < length (familyMembers st))
         && bool_decide (length checked = 0)
      then ([ShowToast "Please select at least one family member to update."
               ToastError], st, b)
      else
        let rows := statusLogs selectedIds (newStatus st) (event_id event)
                      (evacCenterId st) in
        match reply with
        | InsertError message =>
            ([ShowToast ("Error updating status: " ++ message)%string ToastError],
             st, b)
        | Inserted now =>
            ([ShowToast ("Successfully updated status for "
                         ++ pretty (length selectedIds) ++ " resident(s).")%string
                ToastSuccess],
             resetForm st, insert_status_log now rows b)
        end
  | _, _, _ =>
      ([ShowToast "Cannot update status while offline or no active event."
          ToastError], st, b)
  end.

(** ** The status form as a transition system *)

Record World := {
  page : StatusPage;
  backend : Backend;
  storage : IndexedDB CachedItem;
  online : bool;
}.

(** What can happen to the page: the connectivity signal changes (the
    effect hook then runs [loadInitialData] again), and the user's actions. *)
Inductive PageEvent :=
  | Connectivity (isOnline : bool)
  | PickResident (resident : Resident)
  | ChooseStatus (o : StatusOption)
  | ChooseCenter (value : string)
  | ClearSelection
  | Submit (checked : list string) (reply : InsertReply).

Definition step (w : World) (e : PageEvent) : World :=
  match e with
  | Connectivity isOnline =>
      let '(_, st, idb) := loadInitialData isOnline (backend w) (page w) (storage w) in
      {| page := st; backend := backend w; storage := idb; online := isOnline |}
  | PickResident r =>
      {| page := handleSelectResident r (page w); backend := backend w;
         storage := storage w; online := online w |}
  | ChooseStatus o =>
      {| page := setNewStatus (option_value o) (page w); backend := backend w;
         storage := storage w; online := online w |}
  | ChooseCenter v =>
      {| page := setEvacCenterId v (page w); backend := backend w;
         storage := storage w; online := online w |}
  | ClearSelection =>
      {| page := setSelectedResident None (page w); backend := backend w;
         storage := storage w; online := online w |}
  | Submit checked reply =>
      let '(_, st, b) := handleUpdateStatus (online w) checked reply (page w) (backend w) in
      {| page := st; backend := b; storage := storage w; online := online w |}
  end.

(** The page as mounted: the initial state, loaded once. *)
Definition mount (b : Backend) (idb : IndexedDB CachedItem) (isOnline : bool)
  : World :=
  step {| page := initialStatusPage; backend := b; storage := idb;
          online := isOnline |} (Connectivity isOnline).

Definition run (w : World) (es : list PageEvent) : World := foldl step w es.

(** ** Vocabulary of the properties *)

(** The log rows of one resident within one disaster event. *)
Definition entries_of (eventId id : string) (table : list LogRow) : list LogRow :=
  filter (λ r, row_event_id r = eventId ∧ row_resident_id r = id) table.

(** The winning entries [fetchData] works with for an event and a list of
    resident ids: [Array.from(latestStatusMap.values())]. *)
Definition winners (b : Backend) (eventId : string) (residentIds : list string)
  : list LogEntry :=
  JsMap.values (latestStatusMap
    (entry_of_row <$> log_rows_for eventId residentIds (resident_status_log b))).

(** [stats[s]] *)
Definition count (s : ResidentStatus) (stats : list (string * nat)) : nat :=
  default 0 (JsMap.get (status_name s) stats).

(** The sum of [Object.values(stats)]. *)
Definition sum_counts (stats : list (string * nat)) : nat :=
  sum_list (JsMap.values stats).


(** The statuses the form offers. *)
Definition loggable (s : ResidentStatus) : Prop :=
  s ∈ [Safe; Evacuated; Injured; Missing; Deceased].

(** How many residents of a list are displayed with status [s]. *)
Definition shown_count (s : ResidentStatus) (rs : list Resident) : nat :=
  length (filter (λ r, shown_status r = s) rs).

(** [fetchData] left through the missing-event guard. *)
Definition aborted (out : list Effect * DashboardState) : Prop :=
  out.1 = [ConsoleLog "No active events found."].

(** The table with its rows replaced. *)
Definition with_log (table : list LogRow) (b : Backend) : Backend :=
  {| events := events b; residents := residents b;
     resident_status_log := table;
     evacuation_centers := evacuation_centers b;
     residents_count := residents_count b;
     events_error := events_error b; residents_error := residents_error b;
     status_log_error := status_log_error b; centers_error := centers_error b |}.

(** The winning entries with status [s]. *)
Definition tallied (s : ResidentStatus) (L : list LogEntry) : list LogEntry :=
  filter (λ e, status e = s) L.

(** An object with one property per status, in the order of the literals. *)
Definition by_status {A} (f : ResidentStatus → A) : list (string * A) :=
  (λ s, (status_name s, f s)) <$> all_statuses.


(** The winning entries that are Evacuated in the center [c]. *)
Definition sheltered_in (c : string) (L : list LogEntry) : list LogEntry :=
  filter (λ e, in_center e = Some c) L.

(** The status of the entry the map holds for a resident, [Unknown] when it
    holds none. *)
Definition resolved_status (logs : list LogEntry) (id : string) : ResidentStatus :=
  match JsMap.get id (latestStatusMap logs) with
  | Some e => status e
  | None => Unknown
  end.

(** [a] may stand before [b]: its fill ratio is not the smaller one. *)
Definition fuller (a b : EvacStat) : Prop := (fill_ratio b <= fill_ratio a)%Q.


(** Every record of a list carries a key at [path]. *)
Definition keyed {Item} (property : string → Item → option string)
    (path : string) (data : list Item) : Prop :=
  Forall (λ item, is_Some (property path item)) data.



Definition has_stores {Item} (db : gmap string (gmap string Item)) : Prop :=
  Forall (λ n, is_Some (db !! n)) STORES.

(** The storage can be opened, and a database created earlier has the
    three stores. *)
Definition ready {Item} (s : IndexedDB Item) : Prop :=
  openable s = true ∧ has_stores (opened s).

(** ** Concrete scenarios *)

Definition event_E1 : DisasterEvent :=
  {| event_id := "E1"; event_name := "Typhoon"; event_status := Active |}.

Definition resident (id : string) (s : option ResidentStatus) : Resident :=
  {| res_id := id; first_name := "Juan"; last_name := "Cruz";
     municipality := "M"; barangay := "B"; head_of_family_name := None;
     res_status := s |}.

Definition center (id : string) (cap : Z) : EvacuationCenter :=
  {| center_id := id; center_name := id; center_barangay := "B"; capacity := cap |}.

Definition log_row (id : string) (s : ResidentStatus) (ev : string) (t : Z)
    (c : option string) : LogRow :=
  {| row_resident_id := id; row_status := s; row_event_id := ev;
     row_timestamp := t; row_evac_center_id := c |}.

(** A store that returns every row it counts. *)
Definition counted (rs : list Resident) (fm fb : string) : option nat :=
  Some (length (filter (λ r, (fm = "all" ∨ municipality r = fm)
                             ∧ (fb = "all" ∨ barangay r = fb)) rs)).

Definition live_backend (rs : list Resident) (log : list LogRow)
    (cs : list EvacuationCenter) : Backend :=
  {| events := [event_E1]; residents := rs; resident_status_log := log;
     evacuation_centers := cs; residents_count := counted rs;
     events_error := false; residents_error := false;
     status_log_error := false; centers_error := false |}.

(** Scenario A of the specification, with a row of another event for R3. *)
Definition scenario_A : Backend :=
  live_backend [resident "R1" None; resident "R2" None; resident "R3" None]
    [log_row "R1" Safe "E1" 1000 None;
     log_row "R1" Evacuated "E1" 2000 (Some "C1");
     log_row "R2" Missing "E1" 3000 None;
     log_row "R3" Injured "E2" 9000 None]
    [center "C1" 10].

(** Two rows of R1 that the server timed within one millisecond, the later
    one returned second. *)
Definition same_millisecond : Backend :=
  live_backend [resident "R1" None]
    [log_row "R1" Safe "E1" 1000100 None; log_row "R1" Missing "E1" 1000900 None]
    [].

(** Two residents in two towns. *)
Definition two_towns : Backend :=
  live_backend
    [{| res_id := "R1"; first_name := "Juan"; last_name := "Cruz";
        municipality := "M1"; barangay := "B1"; head_of_family_name := None;
        res_status := None |};
     {| res_id := "R2"; first_name := "Ana"; last_name := "Reyes";
        municipality := "M2"; barangay := "B2"; head_of_family_name := None;
        res_status := None |}]
    [log_row "R1" Injured "E1" 1000 None; log_row "R2" Safe "E1" 2000 None]
    [].

(** One resident whose only row carries the status Unknown. *)
Definition unknown_row : Backend :=
  live_backend [resident "R1" None] [log_row "R1" Unknown "E1" 1 None] [].

(** The same id twice in the resident list. *)
Definition repeated_id : Backend :=
  live_backend [resident "R1" None; resident "R1" None]
    [log_row "R1" Safe "E1" 1 None] [].


(** No event at all, and an empty log. *)
Definition nothing_active : Backend :=
  {| events := []; residents := [resident "R1" None]; resident_status_log := [];
     evacuation_centers := []; residents_count := counted [resident "R1" None];
     events_error := false; residents_error := false;
     status_log_error := false; centers_error := false |}.

Definition evacuated_in (id c : string) : LogEntry :=
  {| resident_id := id; status := Evacuated; timestamp := 1;
     evac_center_id := Some c |}.

(** Scenario D of the specification: C2 is empty without capacity, C3 is
    occupied without capacity. *)
Definition scenario_D_centers : list EvacuationCenter :=
  [center "C3" 0; center "C2" 0; center "C1" 2].

Definition scenario_D_logs : list LogEntry :=
  [evacuated_in "R1" "C1"; evacuated_in "R2" "C3"; evacuated_in "R3" "C3"].

(** A storage that opens and holds no database yet. *)
Definition empty_storage {Item} : IndexedDB Item :=
  {| openable := true; database := None |}.

(** Cached residents, one of them with a status from an earlier session. *)
Definition cached_storage : IndexedDB CachedItem :=
  (cacheData item_property "residents"
     [ResidentItem (resident "R1" (Some Safe)); ResidentItem (resident "R2" None)]
     empty_storage).2.

(** ** services/dbService.ts: the metadata *)

Section metadata.
(** The object [{ key, value }] that [setMetadata] stores, for a universe of
    cached objects [Item] and of metadata values [Value]. *)
Context {Item Value : Type} (keyOf : Item → string) (entry : string → Value → Item).

End metadata.

(** ** DashboardPage: the drill-down lists *)



(** [handleEvacCenterClick] up to its query: [evacCenterGroups[centerId] ||
    []], and [None] when that is empty and the handler returns at once. *)
Definition evacClickIds (centerId : string) (st : DashboardState)
  : option (list string) :=
  let ids := default [] (JsMap.get centerId (evacCenterGroups st)) in
  if bool_decide (length ids = 0) then None else Some ids.

(** ** ResidentsPage.fetchData: the status of each resident *)

(** [logs.forEach(log => statusMap.set(log.resident_id, log.status))] over
    the rows as the query returns them, in ascending order of time. *)
Definition statusMap (logs : list LogEntry) : list (string * ResidentStatus) :=
  foldl (λ m log, JsMap.set (resident_id log) (status log) m) [] logs.

(** [(statusMap.get(r.id) as any) || 'Unknown'] *)
Definition listed_status (logs : list LogEntry) (id : string) : ResidentStatus :=
  default Unknown (JsMap.get id (statusMap logs)).

(** ** ResidentsPage: pagination *)

(** [filteredResidents.slice(startIndex, startIndex + rowsPerPage)] with
    [startIndex = (currentPage - 1) * rowsPerPage], for a page number from 1
    on. *)
Definition paginatedResidents {A} (filteredResidents : list A)
    (currentPage rowsPerPage : nat) : list A :=
  let startIndex := (currentPage - 1) * rowsPerPage in
  take rowsPerPage (drop startIndex filteredResidents).

(** [Math.ceil(filteredResidents.length / rowsPerPage)] for a positive
    number of rows. *)
Definition totalPages {A} (filteredResidents : list A) (rowsPerPage : nat) : nat :=
  (length filteredResidents + rowsPerPage - 1) / rowsPerPage.

(** ** StatusUpdatePage.handleScan *)

(** [handleScan]: the resident with the scanned id is selected, and an id
    that no loaded resident has leaves the form as it is.  The scanner's own
    flag [isScanning] is not part of the form's state here. *)
Definition handleScan (residentId : string) (st : StatusPage)
  : list Effect * StatusPage :=
  match List.find (λ r, bool_decide (res_id r = residentId)) (allResidents st) with
  | Some found =>
      ([ShowToast ("Found " ++ first_name found ++ " " ++ last_name found)%string
          ToastSuccess],
       handleSelectResident found st)
  | None =>
      ([ShowToast "Resident ID not found in local records." ToastError], st)
  end.

(** The ids [handleUpdateStatus] writes rows for. *)
Definition selectedIds (checked : list string) (selected : Resident)
    (st : StatusPage) : list string :=
  if bool_decide (1 < length (familyMembers st)) then checked
  else [res_id selected].

(** ** App: the location data *)

(** A row of [from('barangays').select('municipality, barangay')]. *)
Record BarangayRow := {
  brgy_municipality : string;
  brgy_barangay : string;
}.

(** The reducer of [fetchLocationData].  The object is keyed by the
    municipality names of the table; it is kept in insertion order here,
    which is the order of [for...in] for names that are not array indices. *)
Definition locationStep (acc : list (string * list string)) (curr : BarangayRow)
  : list (string * list string) :=
  let acc := ensure (brgy_municipality curr) acc in
  if bool_decide (brgy_barangay curr
                  ∈ default [] (JsMap.get (brgy_municipality curr) acc))
  then acc
  else push (brgy_municipality curr) (brgy_barangay curr) acc.

Definition reducedData (data : list BarangayRow) : list (string * list string) :=
  foldl locationStep [] data.

(** [barangayToMunicipalityMap]: the two nested loops over [locationData]. *)
Definition barangayToMunicipalityMap (locationData : list (string * list string))
  : list (string * string) :=
  foldl (λ map entry,
           foldl (λ map barangay, JsMap.set barangay entry.1 map) map entry.2)
    [] locationData.

(** ** services/geminiService.ts: incidents per barangay *)

(** The reducer of [barangayCounts], on [incident.resident?.barangay] of each
    incident: [acc[barangay] = (acc[barangay] || 0) + 1] where that is
    truthy. *)
Definition countStep (acc : list (string * nat)) (location : option string)
  : list (string * nat) :=
  match location with
  | Some barangay =>
      if truthy location
      then JsMap.set barangay (default 0 (JsMap.get barangay acc) + 1) acc
      else acc
  | None => acc
  end.

Definition barangayCounts (incidents : list (option string)) : list (string * nat) :=
  foldl countStep [] incidents.

(** The incidents that carry a location. *)
Definition located (incidents : list (option string)) : list (option string) :=
  filter (λ o, truthy o = true) incidents.

(** ** Scenarios of the further properties *)

(** A storage that cannot be opened. *)
Definition closed_storage {Item} : IndexedDB Item :=
  {| openable := false; database := None |}.

(** Scenario A with its first two rows in the other order. *)
Definition scenario_A_reordered : list LogRow :=
  [log_row "R1" Evacuated "E1" 2000 (Some "C1");
   log_row "R1" Safe "E1" 1000 None;
   log_row "R2" Missing "E1" 3000 None;
   log_row "R3" Injured "E2" 9000 None].

(** The status form, loaded online in Scenario A, with R1 picked and
    Evacuated to C1 chosen. *)
Definition form_for_R1 : World :=
  run (mount scenario_A empty_storage true)
    [PickResident (resident "R1" None);
     ChooseStatus OptEvacuated;
     ChooseCenter "C1"].

(** The status form, loaded online in Scenario A, with R2 picked and Safe
    chosen. *)
Definition form_for_R2 : World :=
  run (mount scenario_A empty_storage true)
    [PickResident (resident "R2" None); ChooseStatus OptSafe].

Definition barangay_table : list BarangayRow :=
  [{| brgy_municipality := "M1"; brgy_barangay := "B1" |};
   {| brgy_municipality := "M1"; brgy_barangay := "B2" |};
   {| brgy_municipality := "M2"; brgy_barangay := "B3" |};
   {| brgy_municipality := "M1"; brgy_barangay := "B2" |}].

(** * Properties *)

(** ** Insertion-ordered dictionaries *)

Section JsMapFacts.
Context {V : Type}.
Implicit Types (m : list (string * V)) (k : string) (v : V).

Lemma get_set_eq k v m : JsMap.get k (JsMap.set k v m) = Some v.
Proof.
  induction m as [|[k' v'] m IH]; simpl.
  - by rewrite decide_True.
  - destruct (decide (k = k')) as [->|Hne]; simpl.
    + by rewrite decide_True.
    + by rewrite decide_False.
Qed.

Lemma get_set_ne k k' v m :
  k ≠ k' → JsMap.get k' (JsMap.set k v m) = JsMap.get k' m.
Proof.
  intros Hne. induction m as [|[k0 v0] m IH]; simpl.
  - by rewrite decide_False.
  - destruct (decide (k = k0)) as [->|Hk]; simpl.
    + by rewrite !decide_False.
    + destruct (decide (k' = k0)); done.
Qed.

Lemma get_None_keys k m : JsMap.get k m = None ↔ k ∉ JsMap.keys m.
Proof.
  unfold JsMap.keys. induction m as [|[k' v'] m IH]; simpl.
  - split; [intros _; apply not_elem_of_nil | done].
  - rewrite not_elem_of_cons. destruct (decide (k = k')) as [->|Hne].
    + split; [done|]. by intros [? _].
    + rewrite IH. tauto.
Qed.

Lemma get_Some_elem k v m : JsMap.get k m = Some v → (k, v) ∈ m.
Proof.
  induction m as [|[k' v'] m IH]; simpl; [done|].
  destruct (decide (k = k')) as [->|]; intros H.
  - injection H as ->. apply list_elem_of_here.
  - apply list_elem_of_further; auto.
Qed.

Lemma elem_get_Some k v m :
  NoDup (JsMap.keys m) → (k, v) ∈ m → JsMap.get k m = Some v.
Proof.
  unfold JsMap.keys. induction m as [|[k' v'] m IH]; simpl.
  - intros _ H. by apply elem_of_nil in H.
  - intros [Hk Hnd]%NoDup_cons [Heq|Hin]%elem_of_cons.
    + injection Heq as -> ->. by rewrite decide_True.
    + rewrite decide_False; [auto|].
      intros ->. apply Hk. apply list_elem_of_fmap. by exists (k', v).
Qed.

Lemma keys_set_Some k v v0 m :
  JsMap.get k m = Some v0 → JsMap.keys (JsMap.set k v m) = JsMap.keys m.
Proof.
  unfold JsMap.keys. induction m as [|[k' v'] m IH]; simpl; [done|].
  destruct (decide (k = k')) as [->|]; simpl; [done|].
  intros H. f_equal. by apply IH.
Qed.

Lemma keys_set_None k v m :
  JsMap.get k m = None → JsMap.keys (JsMap.set k v m) = JsMap.keys m ++ [k].
Proof.
  unfold JsMap.keys. induction m as [|[k' v'] m IH]; simpl; [done|].
  destruct (decide (k = k')) as [->|]; simpl; [done|].
  intros H. f_equal. by apply IH.
Qed.

Lemma NoDup_keys_set k v m :
  NoDup (JsMap.keys m) → NoDup (JsMap.keys (JsMap.set k v m)).
Proof.
  intros Hnd. destruct (JsMap.get k m) as [v0|] eqn:Hg.
  - by rewrite (keys_set_Some _ _ v0).
  - rewrite keys_set_None by done.
    apply NoDup_app. split_and!; [done| |apply NoDup_singleton].
    intros x Hx ->%list_elem_of_singleton. by apply get_None_keys in Hg.
Qed.
End JsMapFacts.

(** ** Latest status per resident *)

Lemma latestStatusMap_snoc logs x :
  latestStatusMap (logs ++ [x]) = latest_step (latestStatusMap logs) x.
Proof. unfold latestStatusMap. by rewrite foldl_app. Qed.

Lemma latest_step_other m x id :
  id ≠ resident_id x → JsMap.get id (latest_step m x) = JsMap.get id m.
Proof.
  intros Hne. unfold latest_step.
  destruct (JsMap.get (resident_id x) m) as [e|]; [case_bool_decide|];
    try done; by apply get_set_ne.
Qed.

(** The step keeps the held entry unless the new one is strictly later. *)
Lemma latest_step_keeps m x e :
  JsMap.get (resident_id x) m = Some e →
  (getTime (timestamp x) ≤ getTime (timestamp e))%Z →
  latest_step m x = m.
Proof.
  intros Hg Hle. unfold latest_step. rewrite Hg.
  rewrite bool_decide_eq_false_2; [done|lia].
Qed.

Lemma latest_step_replaces m x e :
  JsMap.get (resident_id x) m = Some e →
  (getTime (timestamp e) < getTime (timestamp x))%Z →
  JsMap.get (resident_id x) (latest_step m x) = Some x.
Proof.
  intros Hg Hlt. unfold latest_step. rewrite Hg.
  rewrite bool_decide_eq_true_2 by done. apply get_set_eq.
Qed.

Lemma latest_step_first m x :
  JsMap.get (resident_id x) m = None →
  JsMap.get (resident_id x) (latest_step m x) = Some x.
Proof. intros Hg. unfold latest_step. rewrite Hg. apply get_set_eq. Qed.

Lemma latest_step_NoDup m x :
  NoDup (JsMap.keys m) → NoDup (JsMap.keys (latest_step m x)).
Proof.
  intros Hnd. unfold latest_step.
  destruct (JsMap.get _ m); [case_bool_decide|]; auto using NoDup_keys_set.
Qed.

Lemma latestStatusMap_NoDup logs : NoDup (JsMap.keys (latestStatusMap logs)).
Proof.
  induction logs as [|x logs IH] using rev_ind.
  - apply NoDup_nil_2.
  - rewrite latestStatusMap_snoc. by apply latest_step_NoDup.
Qed.

(** What the map holds for a resident: nothing when the log has no entry
    for it, and otherwise the first of its entries with the greatest time. *)
Lemma latestStatusMap_get logs id :
  match JsMap.get id (latestStatusMap logs) with
  | Some e =>
      resident_id e = id ∧
      ∃ l1 l2, logs = l1 ++ e :: l2
        ∧ Forall (λ x, resident_id x = id →
                       (getTime (timestamp x) < getTime (timestamp e))%Z) l1
        ∧ Forall (λ x, resident_id x = id →
                       (getTime (timestamp x) ≤ getTime (timestamp e))%Z) l2
  | None => Forall (λ x, resident_id x ≠ id) logs
  end.
Proof.
  induction logs as [|x logs IH] using rev_ind; [by constructor|].
  rewrite latestStatusMap_snoc.
  destruct (decide (id = resident_id x)) as [->|Hne].
  - destruct (JsMap.get (resident_id x) (latestStatusMap logs)) as [e|] eqn:Hg.
    + destruct IH as (Hid & l1 & l2 & -> & H1 & H2).
      destruct (decide (getTime (timestamp e) < getTime (timestamp x))%Z) as [Hlt|Hge].
      * rewrite (latest_step_replaces _ _ e) by done.
        split; [done|]. exists (l1 ++ e :: l2), []. split_and!; [done| |done].
        apply Forall_app. split; [|apply Forall_cons; split].
        -- eapply Forall_impl; [exact H1|]. intros y Hy Hr. specialize (Hy Hr). lia.
        -- done.
        -- eapply Forall_impl; [exact H2|]. intros y Hy Hr. specialize (Hy Hr). lia.
      * rewrite (latest_step_keeps _ _ e) by (done || lia). rewrite Hg.
        split; [done|]. exists l1, (l2 ++ [x]). split_and!.
        -- by rewrite <-app_assoc.
        -- done.
        -- apply Forall_app. split; [done|]. apply Forall_singleton. lia.
    + rewrite latest_step_first by done.
      split; [done|]. exists logs, []. split_and!; [done| |done].
      eapply Forall_impl; [exact IH|]. intros y Hy Hr. done.
  - rewrite latest_step_other by done.
    destruct (JsMap.get id (latestStatusMap logs)) as [e|].
    + destruct IH as (Hid & l1 & l2 & -> & H1 & H2).
      split; [done|]. exists l1, (l2 ++ [x]). split_and!.
      * by rewrite <-app_assoc.
      * done.
      * apply Forall_app. split; [done|]. apply Forall_singleton.
        intros Hr. by rewrite Hr in Hne.
    + apply Forall_app. split; [done|]. by apply Forall_singleton.
Qed.

(** Once an entry is held, entries that are not later leave it in place. *)
Lemma foldl_latest_step_keeps l m e :
  JsMap.get (resident_id e) m = Some e →
  Forall (λ x, resident_id x = resident_id e →
               (getTime (timestamp x) ≤ getTime (timestamp e))%Z) l →
  JsMap.get (resident_id e) (foldl latest_step m l) = Some e.
Proof.
  revert m. induction l as [|x l IH]; intros m Hg Hall; [done|].
  apply Forall_cons in Hall as [Hx Hall]. simpl. apply IH; [|done].
  destruct (decide (resident_id e = resident_id x)) as [Heq|Hne].
  - rewrite (latest_step_keeps _ _ e); [done|by rewrite <-Heq|auto].
  - by rewrite latest_step_other.
Qed.

(** Every key of the map is the resident of the entry it holds. *)
Lemma latestStatusMap_key logs k e :
  (k, e) ∈ latestStatusMap logs → resident_id e = k.
Proof.
  intros Hin. apply elem_get_Some in Hin; [|apply latestStatusMap_NoDup].
  pose proof (latestStatusMap_get logs k) as H. rewrite Hin in H. tauto.
Qed.


Lemma get_by_status {A} (f : ResidentStatus → A) s :
  JsMap.get (status_name s) (by_status f) = Some (f s).
Proof. by destruct s. Qed.

Lemma set_by_status {A} (f : ResidentStatus → A) s v :
  JsMap.set (status_name s) v (by_status f)
  = by_status (λ s', if decide (s' = s) then v else f s').
Proof. by destruct s. Qed.

Lemma by_status_ext {A} (f g : ResidentStatus → A) :
  (∀ s, f s = g s) → by_status f = by_status g.
Proof. intros H. unfold by_status, all_statuses. simpl. by rewrite !H. Qed.

Lemma tally_snoc L x : tally (L ++ [x]) = tally_step (tally L) x.
Proof. unfold tally. by rewrite foldl_app. Qed.

Lemma tallied_snoc s L x :
  tallied s (L ++ [x]) = tallied s L ++ (if decide (status x = s) then [x] else []).
Proof. unfold tallied. by rewrite filter_app. Qed.

Lemma newStats_tally L :
  newStats (tally L) = by_status (λ s, length (tallied s L)).
Proof.
  induction L as [|x L IH] using rev_ind; [done|].
  rewrite tally_snoc. unfold tally_step. cbn [newStats]. rewrite IH.
  rewrite get_by_status, set_by_status. apply by_status_ext. intros s.
  rewrite tallied_snoc, length_app.
  destruct (decide (s = status x)) as [->|Hne].
  - rewrite decide_True by done. simpl. lia.
  - rewrite decide_False by done. simpl. lia.
Qed.

Lemma newGroups_tally L :
  newGroups (tally L) = by_status (λ s, resident_id <$> tallied s L).
Proof.
  induction L as [|x L IH] using rev_ind; [done|].
  rewrite tally_snoc. unfold tally_step. cbn [newGroups]. rewrite IH.
  unfold ensure. rewrite get_by_status. unfold push.
  rewrite get_by_status, set_by_status. apply by_status_ext. intros s.
  rewrite tallied_snoc, fmap_app.
  destruct (decide (s = status x)) as [->|Hne].
  - by rewrite decide_True.
  - rewrite decide_False by done. by rewrite app_nil_r.
Qed.

(** ** Groupings *)



Lemma get_ensure k g : JsMap.get k (ensure k g) = Some (default [] (JsMap.get k g)).
Proof.
  unfold ensure. destruct (JsMap.get k g) eqn:Hg; [done|]. apply get_set_eq.
Qed.

Lemma get_push_ensure_eq k x g :
  JsMap.get k (push k x (ensure k g)) = Some (default [] (JsMap.get k g) ++ [x]).
Proof. unfold push. rewrite get_ensure. apply get_set_eq. Qed.

Lemma get_push_ensure_ne k k' x g :
  k ≠ k' → JsMap.get k' (push k x (ensure k g)) = JsMap.get k' g.
Proof.
  intros Hne. unfold push. rewrite get_ensure. rewrite get_set_ne by done.
  unfold ensure. destruct (JsMap.get k g); [done|]. by apply get_set_ne.
Qed.




Lemma newEvacGroups_tally L c :
  default [] (JsMap.get c (newEvacGroups (tally L)))
  = resident_id <$> sheltered_in c L.
Proof.
  induction L as [|x L IH] using rev_ind; [done|].
  rewrite tally_snoc. unfold tally_step. cbn [newEvacGroups].
  unfold sheltered_in in *. rewrite filter_app, fmap_app, <-IH.
  rewrite filter_cons, filter_nil.
  destruct (in_center x) as [c0|] eqn:Hc.
  - destruct (decide (c0 = c)) as [->|Hne].
    + by rewrite get_push_ensure_eq, decide_True.
    + rewrite get_push_ensure_ne by done.
      rewrite decide_False by congruence. by rewrite app_nil_r.
  - rewrite decide_False by done. by rewrite app_nil_r.
Qed.

Lemma occupancyMap_snoc L x :
  occupancyMap (L ++ [x]) = occupancy_step (occupancyMap L) x.
Proof. unfold occupancyMap. by rewrite foldl_app. Qed.

(** The occupancy of a center is the number of winning entries Evacuated
    there. *)
Lemma occupancyMap_get L c :
  default 0 (JsMap.get c (occupancyMap L)) = length (sheltered_in c L).
Proof.
  induction L as [|x L IH] using rev_ind; [done|].
  rewrite occupancyMap_snoc. unfold occupancy_step.
  unfold sheltered_in in *. rewrite filter_app, length_app, <-IH.
  rewrite filter_cons, filter_nil.
  destruct (in_center x) as [c0|] eqn:Hc.
  - destruct (decide (c0 = c)) as [->|Hne].
    + rewrite get_set_eq, decide_True by done. simpl. lia.
    + rewrite get_set_ne by done. rewrite decide_False by congruence. simpl. lia.
  - rewrite decide_False by done. simpl. lia.
Qed.

Lemma in_center_Evacuated e c : in_center e = Some c → status e = Evacuated.
Proof.
  unfold in_center. case_bool_decide; [done|]. simpl. done.
Qed.




(** ** The winning entries *)

Lemma keyed_keys_values (m : list (string * LogEntry)) :
  (∀ k e, (k, e) ∈ m → resident_id e = k) →
  JsMap.keys m = resident_id <$> JsMap.values m.
Proof.
  unfold JsMap.keys, JsMap.values.
  induction m as [|[k e] m IH]; intros Hk; cbn; [done|].
  f_equal.
  - symmetry. apply Hk, list_elem_of_here.
  - apply IH. intros k' e' Hin. by apply Hk, list_elem_of_further.
Qed.

Lemma winning_NoDup logs :
  NoDup (resident_id <$> JsMap.values (latestStatusMap logs)).
Proof.
  rewrite <-keyed_keys_values by apply latestStatusMap_key.
  apply latestStatusMap_NoDup.
Qed.

Lemma winning_elem logs e :
  e ∈ JsMap.values (latestStatusMap logs)
  ↔ JsMap.get (resident_id e) (latestStatusMap logs) = Some e.
Proof.
  unfold JsMap.values. split.
  - intros [[k e'] [-> Hin]]%list_elem_of_fmap. cbn.
    rewrite (latestStatusMap_key _ _ _ Hin).
    apply elem_get_Some; [apply latestStatusMap_NoDup|done].
  - intros Hg%get_Some_elem. apply list_elem_of_fmap. by exists (resident_id e, e).
Qed.

Lemma winning_known logs id :
  id ∈ knownIds (JsMap.values (latestStatusMap logs))
  ↔ is_Some (JsMap.get id (latestStatusMap logs)).
Proof.
  unfold knownIds. rewrite elem_of_list_to_set, list_elem_of_fmap. split.
  - intros (e & -> & He). apply winning_elem in He. by eexists.
  - intros [e He]. exists e.
    pose proof (latestStatusMap_get logs id) as H. rewrite He in H.
    destruct H as [<- _]. split; [done|]. by apply winning_elem.
Qed.

Lemma winning_in_log logs e :
  e ∈ JsMap.values (latestStatusMap logs) → e ∈ logs.
Proof.
  intros He%winning_elem.
  pose proof (latestStatusMap_get logs (resident_id e)) as H. rewrite He in H.
  destruct H as (_ & l1 & l2 & -> & _). apply elem_of_app. right. apply list_elem_of_here.
Qed.

(** ** The status a resident is shown with *)

Lemma foundStatus_by_status (g : ResidentStatus → list string) id s0 :
  (∀ s, s ≠ Unknown → (id ∈ g s ↔ s = s0)) →
  foundStatus (by_status g) id = status_name s0.
Proof.
  intros H. unfold foundStatus, by_status, all_statuses. cbn.
  assert (∀ s, s ≠ Unknown →
            bool_decide (id ∈ g s) = bool_decide (s = s0)) as Hb.
  { intros s Hs. apply bool_decide_ext. auto. }
  rewrite (Hb Safe), (Hb Evacuated), (Hb Injured), (Hb Missing), (Hb Deceased)
    by discriminate.
  destruct s0; cbn; try done.
  rewrite !(bool_decide_eq_false_2 (_ = Unknown)) by discriminate.
  by case_bool_decide.
Qed.


Lemma foundStatus_resolved logs ids id :
  let W := JsMap.values (latestStatusMap logs) in
  foundStatus (JsMap.set "Unknown" (unknownIds ids W) (newGroups (tally W))) id
  = status_name (resolved_status logs id).
Proof.
  intros W. rewrite newGroups_tally.
  change "Unknown" with (status_name Unknown). rewrite set_by_status.
  apply foundStatus_by_status. intros s Hs. rewrite decide_False by done.
  unfold resolved_status, tallied. rewrite list_elem_of_fmap. split.
  - intros (e & -> & [Hst He]%list_elem_of_filter).
    apply winning_elem in He. by rewrite He.
  - intros ->. destruct (JsMap.get id (latestStatusMap logs)) as [e|] eqn:Hg; [|done].
    pose proof (latestStatusMap_get logs id) as H. rewrite Hg in H.
    destruct H as [<- _]. exists e. split; [done|].
    apply list_elem_of_filter. split; [done|]. by apply winning_elem.
Qed.

(** ** fetchData *)

Lemma log_rows_for_nil eventId table : log_rows_for eventId [] table = [].
Proof.
  unfold log_rows_for. induction table as [|r table IH]; [done|].
  rewrite filter_cons_False; [done|]. intros [_ Hin]. by apply elem_of_nil in Hin.
Qed.


(** An answer without rows counts none. *)
Lemma affectedCount_none b fm fb :
  select_resident_ids b fm fb = Some [] → affectedCount b fm fb = 0.
Proof. intros H. unfold affectedCount, count_resident_ids. by rewrite H. Qed.

(** What [fetchData] leaves when the event and the rows could be read. *)
Lemma fetchData_resolves b fm fb st ev ids :
  select_active_event b = Some ev →
  select_resident_ids b fm fb = Some ids →
  status_log_error b = false →
  let logs := entry_of_row <$> log_rows_for (event_id ev) ids (resident_status_log b) in
  let W := winners b (event_id ev) ids in
  ∃ st', fetchData b fm fb st = ([], st')
    ∧ stats st' = by_status (λ s, if decide (s = Unknown)
                                  then length (unknownIds ids W)
                                  else length (tallied s W))
    ∧ (∀ id, foundStatus (statusGroups st') id
             = status_name (resolved_status logs id))
    ∧ evacCenterGroups st' = newEvacGroups (tally W).
Proof.
  intros Hev Hids Herr logs W. unfold fetchData. rewrite Hev, Hids.
  case_bool_decide as Hlen.
  - apply nil_length_inv in Hlen. subst ids.
    eexists. split; [done|]. subst logs W. unfold winners.
    rewrite log_rows_for_nil, (affectedCount_none _ _ _ Hids). cbn.
    split_and!; done.
  - unfold select_status_log. rewrite Herr.
    eexists. split; [done|]. unfold resolve. fold logs.
    change (JsMap.values (latestStatusMap logs)) with W.
    destruct (select_centers b); cbn;
      (split_and!; [|apply foundStatus_resolved|done]);
      rewrite newStats_tally; change "Unknown" with (status_name Unknown);
      by rewrite set_by_status.
Qed.

Lemma entry_of_row_elem ev ids table e :
  e ∈ entry_of_row <$> log_rows_for ev ids table →
  ∃ r, e = entry_of_row r ∧ r ∈ table ∧ row_event_id r = ev
       ∧ row_resident_id r ∈ ids.
Proof.
  intros (r & -> & Hr)%list_elem_of_fmap. exists r.
  apply list_elem_of_filter in Hr as [[? ?] ?]. done.
Qed.

Lemma entries_of_in_log ev ids id table r :
  id ∈ ids → r ∈ entries_of ev id table →
  entry_of_row r ∈ entry_of_row <$> log_rows_for ev ids table.
Proof.
  intros Hid [[Hev Hr] Hin]%list_elem_of_filter.
  apply list_elem_of_fmap_2, list_elem_of_filter. by rewrite Hr.
Qed.

Lemma unknownIds_length ids W :
  length (unknownIds ids W) + length (filter (λ id, id ∈ knownIds W) ids)
  = length ids.
Proof.
  unfold unknownIds. induction ids as [|id ids IH]; [done|].
  rewrite !filter_cons. destruct (decide (id ∈ knownIds W)).
  - rewrite decide_False by tauto. cbn. lia.
  - rewrite decide_True by done. cbn. lia.
Qed.

Lemma known_length ids (W : list LogEntry) :
  NoDup ids → NoDup (resident_id <$> W) →
  Forall (λ e, resident_id e ∈ ids) W →
  length (filter (λ id, id ∈ knownIds W) ids) = length W.
Proof.
  intros Hids HW Hsub.
  rewrite <-(length_fmap resident_id W). apply Permutation_length.
  apply NoDup_Permutation; [by apply NoDup_filter|done|].
  intros id. rewrite list_elem_of_filter. unfold knownIds.
  rewrite elem_of_list_to_set. split; [tauto|].
  intros Hin. split; [done|].
  apply list_elem_of_fmap in Hin as (e & -> & He).
  rewrite Forall_forall in Hsub. by apply Hsub.
Qed.

(** A resident is known exactly when the log has a row for it in the event. *)
Lemma known_has_entry b ev ids id :
  id ∈ ids →
  id ∈ knownIds (winners b ev ids)
  ↔ entries_of ev id (resident_status_log b) ≠ [].
Proof.
  intros Hid. unfold winners. rewrite winning_known.
  set (logs := entry_of_row <$> _).
  pose proof (latestStatusMap_get logs id) as Hget. split.
  - intros [e He]. rewrite He in Hget.
    destruct Hget as (Hrid & l1 & l2 & Hlogs & _).
    assert (e ∈ logs) as Hin.
    { rewrite Hlogs. apply elem_of_app. right. apply list_elem_of_here. }
    apply entry_of_row_elem in Hin as (r & -> & Hr & Hrev & _).
    intros Hnil.
    assert (r ∈ entries_of ev id (resident_status_log b)) as Hre
      by (by apply list_elem_of_filter).
    rewrite Hnil in Hre. by apply elem_of_nil in Hre.
  - intros Hne. destruct (JsMap.get id (latestStatusMap logs)); [by eexists|].
    exfalso. destruct (entries_of ev id (resident_status_log b)) as [|r rs] eqn:Hent;
      [done|].
    assert (r ∈ entries_of ev id (resident_status_log b)) as Hr
      by (rewrite Hent; apply list_elem_of_here).
    assert (row_resident_id r = id) as Hid'
      by (by apply list_elem_of_filter in Hr as [[_ ?] _]).
    apply (entries_of_in_log _ ids) in Hr; [|done]. fold logs in Hr.
    rewrite Forall_forall in Hget. by apply (Hget _ Hr).
Qed.

Lemma winners_in_ids b ev ids :
  Forall (λ e, resident_id e ∈ ids) (winners b ev ids).
Proof.
  apply Forall_forall. intros e He. apply winning_in_log in He.
  by apply entry_of_row_elem in He as (r & -> & _ & _ & ?).
Qed.

Lemma winners_status b ev ids (P : ResidentStatus → Prop) :
  Forall (λ r, row_event_id r = ev → P (row_status r)) (resident_status_log b) →
  Forall (λ e, P (status e)) (winners b ev ids).
Proof.
  intros Hall. apply Forall_forall. intros e He. apply winning_in_log in He.
  apply entry_of_row_elem in He as (r & -> & Hr & Hev & _).
  rewrite Forall_forall in Hall. by apply Hall.
Qed.

Lemma latest_step_get m x :
  JsMap.get (resident_id x) (latest_step m x)
  = Some (match JsMap.get (resident_id x) m with
          | None => x
          | Some e => if bool_decide (getTime (timestamp e) < getTime (timestamp x))%Z then x else e
          end).
Proof.
  unfold latest_step. destruct (JsMap.get (resident_id x) m) as [e|] eqn:Hg.
  - case_bool_decide; [apply get_set_eq|done].
  - apply get_set_eq.
Qed.

Lemma latestStatusMap_get_own logs id :
  JsMap.get id (latestStatusMap logs)
  = JsMap.get id (latestStatusMap (filter (λ x, resident_id x = id) logs)).
Proof.
  induction logs as [|x logs IH] using rev_ind; [done|].
  rewrite filter_app, filter_cons, filter_nil.
  destruct (decide (resident_id x = id)) as [<-|Hne].
  - by rewrite !latestStatusMap_snoc, !latest_step_get, IH.
  - rewrite app_nil_r, latestStatusMap_snoc, latest_step_other; done.
Qed.

Lemma own_entries ev ids id table :
  id ∈ ids →
  filter (λ x, resident_id x = id) (entry_of_row <$> log_rows_for ev ids table)
  = entry_of_row <$> entries_of ev id table.
Proof.
  intros Hid. unfold log_rows_for, entries_of.
  induction table as [|r table IH]; [done|].
  rewrite !filter_cons.
  destruct (decide (row_event_id r = ev ∧ row_resident_id r = id)) as [[He Hr]|Hn].
  - rewrite decide_True by (by rewrite Hr). rewrite fmap_cons, filter_cons.
    rewrite decide_True by done. rewrite fmap_cons. by f_equal.
  - destruct (decide (row_event_id r = ev ∧ row_resident_id r ∈ ids)) as [[He Hr]|Hn'];
      [|done].
    rewrite fmap_cons, filter_cons_False; [done|]. cbn. tauto.
Qed.

Lemma resolved_status_own ev ids id table :
  id ∈ ids →
  resolved_status (entry_of_row <$> log_rows_for ev ids table) id
  = resolved_status (entry_of_row <$> entries_of ev id table) id.
Proof.
  intros Hid. unfold resolved_status.
  rewrite latestStatusMap_get_own, (own_entries _ _ _ _ Hid).
  by rewrite (latestStatusMap_get_own (entry_of_row <$> entries_of ev id table)).
Qed.

(** The groups [fetchData] leaves. *)
Lemma fetchData_statusGroups b fm fb st ev ids :
  select_active_event b = Some ev →
  select_resident_ids b fm fb = Some ids →
  status_log_error b = false →
  let W := winners b (event_id ev) ids in
  statusGroups (fetchData b fm fb st).2
  = if bool_decide (length ids = 0) then [("Unknown", [])]
    else by_status (λ s, if decide (s = Unknown) then unknownIds ids W
                         else resident_id <$> tallied s W).
Proof.
  intros Hev Hids Herr W. unfold fetchData. rewrite Hev, Hids.
  case_bool_decide as Hlen; [done|].
  unfold select_status_log. rewrite Herr. cbn [snd]. unfold resolve.
  fold (winners b (event_id ev) ids). fold W.
  destruct (select_centers b); cbn;
    rewrite newGroups_tally; change "Unknown" with (status_name Unknown);
    by rewrite set_by_status.
Qed.

(** The center statistics [fetchData] leaves when the centers are read. *)
Lemma fetchData_evacStats b fm fb st ev ids :
  select_active_event b = Some ev →
  select_resident_ids b fm fb = Some ids →
  status_log_error b = false →
  centers_error b = false →
  evacStats (fetchData b fm fb st).2
  = if bool_decide (length ids = 0) then []
    else evacChartData (evacuation_centers b) (winners b (event_id ev) ids).
Proof.
  intros Hev Hids Herr Hcen. unfold fetchData. rewrite Hev, Hids.
  case_bool_decide as Hlen; [done|].
  unfold select_status_log. rewrite Herr. cbn [snd]. unfold resolve, select_centers.
  by rewrite Hcen.
Qed.



Lemma getTime_mono a b : (a ≤ b)%Z → (getTime a ≤ getTime b)%Z.
Proof. intros H. unfold getTime. by apply Z.div_le_mono. Qed.






(** Claim C10.  Of the entries of one resident, the first in iteration order
    to reach the greatest time is the one the map ends up holding: the entries
    before it are strictly earlier, and an entry after it whose time is not
    strictly greater, an equal time included, leaves the map as it is.  The
    times are the ones the code compares, [getTime()] of the timestamps: two
    identical timestamps have equal times. *)
Theorem first_of_equal_timestamps_wins l1 e l2 :
  Forall (λ x, resident_id x = resident_id e →
               (getTime (timestamp x) < getTime (timestamp e))%Z) l1 →
  Forall (λ x, resident_id x = resident_id e →
               (getTime (timestamp x) ≤ getTime (timestamp e))%Z) l2 →
  JsMap.get (resident_id e) (latestStatusMap (l1 ++ e :: l2)) = Some e
  ∧ ∀ x, x ∈ l2 → resident_id x = resident_id e →
         latest_step (latestStatusMap (l1 ++ [e])) x = latestStatusMap (l1 ++ [e]).
Proof.
  intros H1 H2.
  assert (JsMap.get (resident_id e) (latestStatusMap (l1 ++ [e])) = Some e) as Hheld.
  { rewrite latestStatusMap_snoc.
    pose proof (latestStatusMap_get l1 (resident_id e)) as Hget.
    destruct (JsMap.get (resident_id e) (latestStatusMap l1)) as [held|] eqn:Hg.
    - destruct Hget as (Hrid & k1 & k2 & -> & _ & _).
      apply latest_step_replaces with held; [done|].
      rewrite Forall_forall in H1. apply H1; [|done].
      apply elem_of_app. right. apply list_elem_of_here.
    - by apply latest_step_first. }
  split.
  - unfold latestStatusMap in *. rewrite foldl_app. cbn [foldl].
    rewrite foldl_app in Hheld. cbn [foldl] in Hheld.
    by apply foldl_latest_step_keeps.
  - intros x Hx Hrid. apply latest_step_keeps with e; [by rewrite Hrid|].
    rewrite Forall_forall in H2. by apply H2.
Qed.

(** Two entries of R1 with the same time: the first one is kept. *)
Lemma first_of_equal_timestamps_wins_witness :
  let first := {| resident_id := "R1"; status := Safe; timestamp := 5;
                  evac_center_id := None |} in
  let second := {| resident_id := "R1"; status := Missing; timestamp := 5;
                   evac_center_id := None |} in
  JsMap.get "R1" (latestStatusMap ([] ++ first :: [second])) = Some first.
Proof.
  intros first second.
  apply (first_of_equal_timestamps_wins [] first [second]).
  - constructor.
  - constructor; [|constructor]. intros _. cbn. lia.
Defined.

(** ** Counting *)

Lemma sum_counts_by_status (f : ResidentStatus → nat) :
  sum_counts (by_status f)
  = f Safe + f Evacuated + f Injured + f Missing + f Deceased + f Unknown.
Proof. unfold sum_counts, by_status. cbn. lia. Qed.

Lemma count_by_status (f : ResidentStatus → nat) s : count s (by_status f) = f s.
Proof. unfold count. by rewrite get_by_status. Qed.

Lemma tallied_total L :
  length (tallied Safe L) + length (tallied Evacuated L)
  + length (tallied Injured L) + length (tallied Missing L)
  + length (tallied Deceased L) + length (tallied Unknown L) = length L.
Proof.
  unfold tallied. induction L as [|x L IH]; [done|].
  rewrite !filter_cons.
  destruct (status x) eqn:Hs;
    repeat case_decide; try congruence; cbn; lia.
Qed.

Lemma tallied_none s L :
  Forall (λ e, status e ≠ s) L → length (tallied s L) = 0.
Proof.
  unfold tallied. induction 1 as [|x L Hx _ IH]; [done|].
  by rewrite filter_cons_False.
Qed.


Lemma filter_length_ext {A} (P Q : A → Prop) `{!∀ x, Decision (P x)}
    `{!∀ x, Decision (Q x)} (l : list A) :
  (∀ x, x ∈ l → P x ↔ Q x) → length (filter P l) = length (filter Q l).
Proof.
  induction l as [|x l IH]; intros Hiff; [done|].
  rewrite !filter_cons.
  assert (P x ↔ Q x) as Hx by apply Hiff, list_elem_of_here.
  assert (length (filter P l) = length (filter Q l)) as Hl.
  { apply IH. intros y Hy. by apply Hiff, list_elem_of_further. }
  destruct (decide (P x)), (decide (Q x)); cbn; try tauto; lia.
Qed.


(** Claim C2.  The Unknown count is the number of residents minus the number
    of residents with a row in the active event.  The counts sum to the number
    of residents for the data the dashboard is given: resident ids that are
    pairwise distinct, being the keys of the residents table, and log rows
    that never carry the status Unknown, which the status form does not
    offer. *)
Theorem counts_close_over_distinct_entities b fm fb st ev ids :
  select_active_event b = Some ev →
  select_resident_ids b fm fb = Some ids →
  status_log_error b = false →
  let st' := (fetchData b fm fb st).2 in
  (NoDup ids →
   Forall (λ r, row_event_id r = event_id ev → row_status r ≠ Unknown)
     (resident_status_log b) →
   sum_counts (stats st') = length ids)
  ∧ count Unknown (stats st')
    = length ids
      - length (filter (λ id, entries_of (event_id ev) id (resident_status_log b) ≠ [])
                  ids).
Proof.
  intros Hev Hids Herr st'.
  destruct (fetchData_resolves b fm fb st ev ids Hev Hids Herr)
    as (st1 & Hfd & Hstats & _ & _).
  subst st'. rewrite Hfd. cbn [snd]. rewrite Hstats.
  set (W := winners b (event_id ev) ids).
  pose proof (unknownIds_length ids W) as Hu.
  assert (length (filter (λ id, id ∈ knownIds W) ids)
          = length (filter (λ id, entries_of (event_id ev) id (resident_status_log b) ≠ [])
                      ids)) as Hf.
  { apply filter_length_ext. intros id Hid. by apply known_has_entry. }
  split.
  - intros Hnd Hlog.
    pose proof (known_length ids W Hnd (winning_NoDup _) (winners_in_ids _ _ _)) as Hk.
    pose proof (tallied_total W) as Ht.
    pose proof (tallied_none Unknown W
                  (winners_status b _ ids (λ s, s ≠ Unknown) Hlog)) as H0.
    rewrite sum_counts_by_status. repeat case_decide; try congruence. lia.
  - rewrite count_by_status. case_decide; [lia|done].
Qed.

(** Scenario A: three residents, counts that sum to three. *)
Lemma counts_close_over_distinct_entities_witness :
  NoDup ["R1"; "R2"; "R3"]
  ∧ Forall (λ r, row_event_id r = event_id event_E1 → row_status r ≠ Unknown)
      (resident_status_log scenario_A)
  ∧ sum_counts (stats (fetchData scenario_A "all" "all" initialDashboard).2) = 3.
Proof.
  assert (NoDup ["R1"; "R2"; "R3"]) as Hnd.
  { apply (bool_decide_unpack _). vm_compute. exact I. }
  assert (Forall (λ r, row_event_id r = event_id event_E1 → row_status r ≠ Unknown)
            (resident_status_log scenario_A)) as Hlog.
  { repeat constructor; cbn; intros _; discriminate. }
  split_and!; [done..|].
  apply (proj1 (counts_close_over_distinct_entities scenario_A "all" "all"
                  initialDashboard event_E1 ["R1"; "R2"; "R3"]
                  eq_refl eq_refl eq_refl) Hnd Hlog).
Defined.

(** Neither hypothesis of the sum can be left out: a winning row with the
    status Unknown would be counted nowhere (one resident, counts that sum to
    0), and an id listed twice would be counted once (two residents, counts
    that sum to 1). *)
Lemma counts_miss_unknown_rows_and_repeated_ids :
  (select_resident_ids unknown_row "all" "all" = Some ["R1"]
   ∧ sum_counts (stats (fetchData unknown_row "all" "all" initialDashboard).2) = 0)
  ∧ (select_resident_ids repeated_id "all" "all" = Some ["R1"; "R1"]
     ∧ sum_counts (stats (fetchData repeated_id "all" "all" initialDashboard).2) = 1).
Proof. split_and!; reflexivity. Qed.




(** ** Sorting the evacuation centers *)


Lemma by_ratio_desc_le a b :
  Qle_bool (by_ratio_desc a b) 0 = true ↔ fuller a b.
Proof.
  unfold by_ratio_desc, fuller. rewrite Qle_bool_iff. split; intros H; lra.
Qed.

Lemma fuller_total a b : fuller a b ∨ fuller b a.
Proof. unfold fuller. destruct (Qlt_le_dec (fill_ratio a) (fill_ratio b)); [right|left]; lra. Qed.

Lemma fuller_trans a b c : fuller a b → fuller b c → fuller a c.
Proof. unfold fuller. intros. lra. Qed.

Lemma sort_insert_perm {A} (cmp : A → A → Q) x l : sort_insert cmp x l ≡ₚ x :: l.
Proof.
  induction l as [|y l IH]; cbn; [done|].
  destruct (Qle_bool (cmp x y) 0); [done|].
  rewrite IH. apply Permutation_swap.
Qed.

Lemma array_sort_perm {A} (cmp : A → A → Q) l : array_sort cmp l ≡ₚ l.
Proof.
  unfold array_sort. induction l as [|x l IH]; cbn; [done|].
  by rewrite sort_insert_perm, IH.
Qed.

Lemma sort_insert_sorted x l :
  StronglySorted fuller l → StronglySorted fuller (sort_insert by_ratio_desc x l).
Proof.
  induction 1 as [|y l Hl IH Hy]; cbn.
  - repeat constructor.
  - destruct (Qle_bool (by_ratio_desc x y) 0) eqn:Hc.
    + apply by_ratio_desc_le in Hc. constructor; [by constructor|].
      constructor; [done|].
      eapply Forall_impl; [exact Hy|]. intros z Hz. by eapply fuller_trans.
    + constructor; [done|].
      rewrite sort_insert_perm. constructor; [|done].
      destruct (fuller_total x y) as [Hxy|Hyx]; [|done].
      apply by_ratio_desc_le in Hxy. congruence.
Qed.

Lemma array_sort_sorted l : StronglySorted fuller (array_sort by_ratio_desc l).
Proof.
  unfold array_sort. induction l as [|x l IH]; cbn; [constructor|].
  by apply sort_insert_sorted.
Qed.

Lemma shown_spec d :
  shown d = true ↔ ¬ ((stat_capacity d ≤ 0)%Z ∧ occupancy d = 0).
Proof. unfold shown. rewrite orb_true_iff, !bool_decide_eq_true. lia. Qed.

(** Claim C4, amended.  The statistics list holds the centers except exactly
    those whose capacity is not positive and whose occupancy is 0, in
    descending order of the fill ratio, which is the occupancy divided by the
    capacity for a positive capacity and 0 for any other capacity, whatever
    the occupancy; the occupancy of a center is the number of winning entries
    Evacuated there. *)
Theorem evac_stats_filtered_and_sorted centers latestLogs :
  let listed := center_stat (occupancyMap latestLogs) <$> centers in
  evacChartData centers latestLogs
    ≡ₚ filter (λ d, ¬ ((stat_capacity d ≤ 0)%Z ∧ occupancy d = 0)) listed
  ∧ StronglySorted (λ a b, (fill_ratio b <= fill_ratio a)%Q)
      (evacChartData centers latestLogs)
  ∧ (∀ d, d ∈ listed →
       occupancy d = length (sheltered_in (stat_id d) latestLogs)
       ∧ ((0 < stat_capacity d)%Z →
          fill_ratio d = (Z.of_nat (occupancy d) # Z.to_pos (stat_capacity d))%Q)
       ∧ ((stat_capacity d ≤ 0)%Z → fill_ratio d = 0%Q)).
Proof.
  intros listed. unfold evacChartData. fold listed. split_and!.
  - rewrite array_sort_perm.
    induction listed as [|d l IH]; [done|].
    rewrite !filter_cons.
    destruct (decide (shown d = true)) as [Hs|Hs].
    + rewrite decide_True by (by apply shown_spec). by f_equiv.
    + rewrite decide_False; [done|]. intros Hn. by apply Hs, shown_spec.
  - apply array_sort_sorted.
  - intros d (c & -> & Hc)%list_elem_of_fmap. cbn. split_and!.
    + apply occupancyMap_get.
    + intros Hpos. unfold fill_ratio. cbn. by rewrite bool_decide_eq_true_2.
    + intros Hle. unfold fill_ratio. cbn. rewrite bool_decide_eq_false_2; [done|lia].
Qed.

(** Scenario D: the listed centers are in descending order of fill ratio. *)
Lemma evac_stats_filtered_and_sorted_witness :
  StronglySorted (λ a b, (fill_ratio b <= fill_ratio a)%Q)
    (evacChartData scenario_D_centers scenario_D_logs).
Proof.
  apply (proj1 (proj2 (evac_stats_filtered_and_sorted scenario_D_centers
                         scenario_D_logs))).
Defined.

(** Claim C4 as stated fails for a center whose capacity was entered as a
    negative number, which the form accepts: with nobody evacuated there it is
    left out of the list, although its capacity is not 0. *)
Lemma center_of_negative_capacity_is_left_out :
  let c := center "C1" (-5) in
  capacity c ≠ 0%Z
  ∧ occupancy (center_stat (occupancyMap []) c) = 0
  ∧ evacChartData [c] [] = [].
Proof. intros c. split_and!; [discriminate|reflexivity..]. Qed.

(** ** Leaving [fetchData] early *)

(** Claim C8, amended.  [fetchData] stops at its guard exactly when no active
    event is found, whether or not there is log data, and then leaves the
    earlier results in place.  With an active event, and the residents and the
    log read, it reports nothing and completes: an empty resident list gives
    counts that are all 0, and an empty log gives Unknown for every resident,
    an Unknown count equal to the number of residents and 0 elsewhere. *)
Theorem resolution_stops_only_without_active_event b fm fb st :
  (aborted (fetchData b fm fb st) ↔ select_active_event b = None)
  ∧ (select_active_event b = None →
     (fetchData b fm fb st).2 = setIsLoading false st)
  ∧ (∀ ev ids,
       select_active_event b = Some ev →
       select_resident_ids b fm fb = Some ids →
       status_log_error b = false →
       let st' := (fetchData b fm fb st).2 in
       (fetchData b fm fb st).1 = []
       ∧ (ids = [] →
          stats st' = zeroStats
          ∧ ∀ id, foundStatus (statusGroups st') id = status_name Unknown)
       ∧ (log_rows_for (event_id ev) ids (resident_status_log b) = [] →
          (∀ s, count s (stats st') = if decide (s = Unknown) then length ids else 0)
          ∧ ∀ id, foundStatus (statusGroups st') id = status_name Unknown)).
Proof.
  split_and!.
  - unfold aborted, fetchData.
    destruct (select_active_event b) as [ev|]; [|done]. split; [|done].
    destruct (select_resident_ids b fm fb) as [ids|]; [|done].
    case_bool_decide; [done|].
    by destruct (select_status_log b (event_id ev) ids).
  - intros Hev. unfold fetchData. by rewrite Hev.
  - intros ev ids Hev Hids Herr st'.
    destruct (fetchData_resolves b fm fb st ev ids Hev Hids Herr)
      as (st1 & Hfd & Hstats & Hfound & _).
    subst st'. rewrite Hfd. cbn [fst snd]. split_and!; [done|..].
    + intros ->. split.
      * rewrite Hstats. unfold winners. rewrite log_rows_for_nil.
        apply by_status_ext. intros s. by case_decide.
      * intros id. rewrite Hfound. by rewrite log_rows_for_nil.
    + intros Hnil. split.
      * intros s. rewrite Hstats, count_by_status. unfold winners.
        rewrite Hnil. case_decide; [|done].
        unfold unknownIds. cbn. f_equal. clear.
        induction ids as [|id ids IH]; [done|].
        rewrite filter_cons_True; [by f_equal|]. apply not_elem_of_empty.
      * intros id. rewrite Hfound. by rewrite Hnil.
Qed.

(** Claim C8 as stated fails without an active event and without any log
    data: resolution stops all the same. *)
Lemma no_event_stops_resolution_without_any_log :
  aborted (fetchData nothing_active "all" "all" initialDashboard)
  ∧ select_active_event nothing_active = None
  ∧ resident_status_log nothing_active = [].
Proof. split_and!; reflexivity. Qed.

(** ** The offline cache *)

Section dbServiceFacts.
Context {Item : Type} (property : string → Item → option string).
Implicit Types (s : IndexedDB Item) (db : gmap string (gmap string Item)).

Lemma createStores_fresh :
  has_stores (createStores (∅ : gmap string (gmap string Item))).
Proof.
  unfold has_stores, createStores, STORES. cbn. rewrite !lookup_empty.
  rewrite lookup_insert_ne, lookup_empty by done.
  rewrite !lookup_insert_ne, lookup_empty by done.
  repeat constructor.
  - rewrite !lookup_insert_ne by done. rewrite lookup_insert_eq. by eexists.
  - rewrite lookup_insert_ne by done. rewrite lookup_insert_eq. by eexists.
  - rewrite lookup_insert_eq. by eexists.
Qed.

Lemma openDB_ready s :
  ready s →
  openDB s = (Fulfilled (opened s), {| openable := true; database := Some (opened s) |}).
Proof. intros [Ho _]. unfold openDB, opened. by rewrite Ho. Qed.

Lemma ready_store s name : ready s → name ∈ STORES → is_Some (opened s !! name).
Proof.
  intros [_ Hs] Hn. unfold has_stores in Hs. rewrite Forall_forall in Hs.
  by apply Hs.
Qed.

Lemma ready_after db :
  has_stores db → ready {| openable := true; database := Some db |}.
Proof. by split. Qed.

Lemma has_stores_insert db name store :
  has_stores db → has_stores (<[name := store]> db).
Proof.
  intros Hs. eapply Forall_impl; [exact Hs|].
  intros n Hn. cbn. destruct (decide (name = n)) as [->|Hne].
  - rewrite lookup_insert_eq. by eexists.
  - by rewrite lookup_insert_ne.
Qed.

(** On a storage that opens, [cacheData] on a managed store settles with the
    store replaced by what the puts lead to, and is rejected exactly when a
    [put] threw. *)
Lemma cacheData_ready s name data :
  ready s → name ∈ STORES →
  cacheData property name data s
  = (if (replaceAll property (keyPath name) data).1
     then Rejected "DataError" else Fulfilled (),
     {| openable := true;
        database := Some (<[name := (replaceAll property (keyPath name) data).2]>
                            (opened s)) |}).
Proof.
  intros Hr Hn. unfold cacheData, idb_bind. rewrite openDB_ready by done.
  unfold transaction. rewrite bool_decide_eq_true_2.
  - by destruct (replaceAll property (keyPath name) data).
  - apply Forall_singleton. by apply ready_store.
Qed.

Lemma getCachedData_ready s name :
  ready s → name ∈ STORES →
  getCachedData name s
  = (Fulfilled (getAll (default ∅ (opened s !! name))),
     {| openable := true; database := Some (opened s) |}).
Proof.
  intros Hr Hn. unfold getCachedData, idb_bind. rewrite openDB_ready by done.
  unfold transaction. rewrite bool_decide_eq_true_2; [done|].
  apply Forall_singleton. by apply ready_store.
Qed.


Lemma ready_insert s name store :
  ready s →
  ready {| openable := true; database := Some (<[name := store]> (opened s)) |}.
Proof.
  intros [_ Hs]. by apply ready_after, has_stores_insert.
Qed.





Lemma putAll_threw path data store :
  (putAll property path data store).1 = false ↔ keyed property path data.
Proof.
  revert store. induction data as [|i data IH]; intros store.
  { split; [constructor|done]. }
  cbn. unfold put. destruct (property path i) as [k|] eqn:Hi; cbn.
  - rewrite IH. split; [intros H; constructor; [by rewrite Hi|done]|].
    by intros [_ ?]%Forall_cons.
  - split; [done|]. intros [[k Hk] _]%Forall_cons. congruence.
Qed.









End dbServiceFacts.

Lemma empty_storage_ready {Item} : ready (@empty_storage Item).
Proof. split; [reflexivity|]. repeat constructor; by eexists. Qed.



(** ** The offline load *)

Lemma shown_status_without r : shown_status (without_status r) = Unknown.
Proof. done. Qed.

Lemma shown_count_cleared (rs : list Resident) s :
  shown_count s (without_status <$> rs)
  = if decide (s = Unknown) then length rs else 0.
Proof.
  unfold shown_count. induction rs as [|r rs IH]; [by case_decide|].
  rewrite fmap_cons, filter_cons, shown_status_without.
  destruct (decide (s = Unknown)) as [->|Hne].
  - rewrite decide_True by done. cbn. by rewrite IH.
  - rewrite decide_False by done. by rewrite IH.
Qed.

(** Claim C7.  Offline, the residents loaded are the cached ones with their
    status removed: none keeps a status, all are displayed as Unknown, so the
    number displayed as Unknown is the number of residents and no resident is
    displayed with another status. *)
Theorem offline_residents_have_no_status b st idb cached idb' :
  getCachedData "residents" idb = (Fulfilled cached, idb') →
  let st' := (loadInitialData false b st idb).1.2 in
  allResidents st' = without_status <$> omap as_resident cached
  ∧ Forall (λ r, res_status r = None ∧ shown_status r = Unknown) (allResidents st')
  ∧ shown_count Unknown (allResidents st') = length (allResidents st')
  ∧ (∀ s, s ≠ Unknown → shown_count s (allResidents st') = 0).
Proof.
  intros Hget st'.
  assert (allResidents st' = without_status <$> omap as_resident cached) as Hall.
  { subst st'. unfold loadInitialData. rewrite Hget.
    by destruct (getCachedData "evac_centers" idb') as [[cs|reason] idb2]. }
  rewrite Hall. split_and!.
  - done.
  - apply Forall_fmap, Forall_true. done.
  - rewrite shown_count_cleared, decide_True by done. by rewrite length_fmap.
  - intros s Hs. by rewrite shown_count_cleared, decide_False.
Qed.

(** A cached resident with the status Safe of an earlier session is loaded
    without it. *)
Lemma offline_residents_have_no_status_witness :
  getCachedData "residents" cached_storage
  = (Fulfilled [ResidentItem (resident "R1" (Some Safe));
                ResidentItem (resident "R2" None)],
     (getCachedData "residents" cached_storage).2)
  ∧ allResidents (loadInitialData false scenario_A initialStatusPage cached_storage).1.2
    = [resident "R1" None; resident "R2" None].
Proof.
  assert (getCachedData "residents" cached_storage
          = (Fulfilled [ResidentItem (resident "R1" (Some Safe));
                        ResidentItem (resident "R2" None)],
             (getCachedData "residents" cached_storage).2)) as Hget.
  { vm_compute. reflexivity. }
  split; [exact Hget|].
  apply (proj1 (offline_residents_have_no_status scenario_A initialStatusPage
                  cached_storage _ _ Hget)).
Defined.

(** ** The status form *)

Lemma loggable_option o : loggable (option_value o).
Proof. unfold loggable. destruct o; cbn; by repeat constructor. Qed.

Lemma loggable_Safe : loggable Safe.
Proof. apply (loggable_option OptSafe). Qed.

Lemma loggable_not_Unknown s : loggable s → s ≠ Unknown.
Proof.
  unfold loggable. intros Hs ->.
  repeat (apply elem_of_cons in Hs as [Hs|Hs]; [discriminate|]).
  by apply elem_of_nil in Hs.
Qed.

Lemma loadInitialData_newStatus isOnline b st idb :
  newStatus (loadInitialData isOnline b st idb).1.2 = newStatus st.
Proof.
  unfold loadInitialData. destruct isOnline.
  - by destruct (select_active_event b).
  - destruct (getCachedData "residents" idb) as [[rs|reason] idb1]; [|done].
    by destruct (getCachedData "evac_centers" idb1) as [[cs|reason] idb2].
Qed.

Lemma statusLogs_status ids s ev c :
  Forall (λ i, ins_status i = s) (statusLogs ids s ev c).
Proof. unfold statusLogs. apply Forall_fmap, Forall_true. done. Qed.

(** Closes the case of a step that keeps the form's status and the log. *)
Ltac nothing_added :=
  cbn; split; [done|]; exists []; by rewrite app_nil_r.

(** One step keeps a loggable status in the form and only appends rows with
    that status. *)
Lemma step_appends w e :
  loggable (newStatus (page w)) →
  loggable (newStatus (page (step w e)))
  ∧ ∃ added,
      resident_status_log (backend (step w e))
      = resident_status_log (backend w) ++ added
      ∧ Forall (λ r, loggable (row_status r)) added.
Proof.
  intros Hl. destruct e as [isOnline|r|o|v| |checked reply]; cbn.
  - destruct (loadInitialData isOnline (backend w) (page w) (storage w))
      as [[effs st] idb] eqn:Hload. cbn. split.
    + pose proof (loadInitialData_newStatus isOnline (backend w) (page w) (storage w)) as Hn.
      rewrite Hload in Hn. cbn in Hn. by rewrite Hn.
    + exists []. by rewrite app_nil_r.
  - nothing_added.
  - split; [apply loggable_option|]. exists []. by rewrite app_nil_r.
  - nothing_added.
  - nothing_added.
  - unfold handleUpdateStatus.
    destruct (selectedResident (page w)) as [sel|]; [|nothing_added].
    destruct (page_activeEvent (page w)) as [ev|]; [|nothing_added].
    destruct (online w); [|nothing_added].
    destruct (_ && _); [nothing_added|].
    destruct reply as [now|message]; [|nothing_added].
    cbn. split; [apply loggable_Safe|].
    eexists. split; [done|]. apply Forall_fmap.
    eapply Forall_impl; [apply statusLogs_status|].
    intros i Hi. cbn. by rewrite Hi.
Qed.

Lemma run_appends w es :
  loggable (newStatus (page w)) →
  ∃ added,
    resident_status_log (backend (run w es))
    = resident_status_log (backend w) ++ added
    ∧ Forall (λ r, loggable (row_status r)) added.
Proof.
  revert w. induction es as [|e es IH]; intros w Hl.
  - exists []. by rewrite app_nil_r.
  - cbn. destruct (step_appends w e Hl) as (Hl' & a1 & Ha1 & Hf1).
    destruct (IH _ Hl') as (a2 & Ha2 & Hf2).
    exists (a1 ++ a2). split.
    + unfold run in Ha2. by rewrite Ha2, Ha1, app_assoc.
    + by apply Forall_app.
Qed.

(** Claim C9.  Whatever happens on the status form, the log only grows, and
    every row added carries one of the statuses Safe, Evacuated, Injured,
    Missing and Deceased, never Unknown. *)
Theorem only_loggable_statuses_are_written b idb isOnline es :
  ∃ added,
    resident_status_log (backend (run (mount b idb isOnline) es))
    = resident_status_log b ++ added
    ∧ Forall (λ r, row_status r ∈ [Safe; Evacuated; Injured; Missing; Deceased]
                   ∧ row_status r ≠ Unknown) added.
Proof.
  set (w0 := {| page := initialStatusPage; backend := b; storage := idb;
                online := isOnline |}).
  assert (loggable (newStatus (page w0))) as Hl0 by apply loggable_Safe.
  destruct (run_appends w0 (Connectivity isOnline :: es) Hl0) as (added & Hlog & Hall).
  exists added. split; [done|].
  eapply Forall_impl; [exact Hall|]. intros r Hr. split; [done|].
  by apply loggable_not_Unknown.
Qed.

(** * Further properties *)

(** ** Facts about the scenarios *)

Lemma scenario_A_ids_NoDup : NoDup ["R1"; "R2"; "R3"].
Proof. apply (bool_decide_unpack _). vm_compute. exact I. Qed.

Ltac each_member H :=
  repeat (apply elem_of_cons in H as [->|H]); [..|by apply elem_of_nil in H].

Lemma form_for_R1_checked : 1 < length (familyMembers (page form_for_R1)) → [] ≠ @nil string.
Proof. intros H. cbn in H. lia. Qed.

(** ** The cache: what an operation leaves alone *)


Section dbServiceMore.
Context {Item : Type} (property : string → Item → option string).
Implicit Types (s : IndexedDB Item) (db : gmap string (gmap string Item)).

Lemma opened_after db :
  opened {| openable := true; database := Some db |} = db.
Proof. done. Qed.

(** X1.  Caching into one store leaves every other store as it reads, whether
    the caching is fulfilled or a record without a key makes it fail. *)
Theorem cacheData_leaves_other_stores s name other data :
  ready s → name ∈ STORES → other ∈ STORES → other ≠ name →
  ∃ l s1 s2,
    getCachedData other s = (Fulfilled l, s1)
    ∧ getCachedData other (cacheData property name data s).2 = (Fulfilled l, s2)
    ∧ (keyed property (keyPath name) data →
       (cacheData property name data ;;; getCachedData other) s = (Fulfilled l, s2)).
Proof.
  intros Hr Hn Ho Hne.
  rewrite (cacheData_ready property) by done. cbn [snd].
  rewrite !getCachedData_ready by (by apply ready_insert || done).
  eexists _, _, _. split; [done|]. rewrite opened_after.
  split; [by rewrite lookup_insert_ne|].
  intros Hk. unfold idb_bind. rewrite (cacheData_ready property) by done.
  unfold replaceAll. rewrite (proj2 (putAll_threw property _ _ _) Hk).
  rewrite getCachedData_ready by (by apply ready_insert || done).
  rewrite opened_after. by rewrite lookup_insert_ne.
Qed.

(** X2.  A name that is no object store: the promise is rejected and every
    managed store reads as before. *)
Theorem cacheData_unknown_store_changes_nothing s name data n :
  ready s → opened s !! name = None → n ∈ STORES →
  ∃ s1 l s2 s3,
    cacheData property name data s = (Rejected "NotFoundError", s1)
    ∧ getCachedData n s = (Fulfilled l, s2)
    ∧ getCachedData n s1 = (Fulfilled l, s3).
Proof.
  intros Hr Hnone Hn.
  assert (cacheData property name data s
          = (Rejected "NotFoundError",
             {| openable := true; database := Some (opened s) |})) as Hc.
  { unfold cacheData, idb_bind. rewrite openDB_ready by done.
    unfold transaction. rewrite bool_decide_eq_false_2; [done|].
    intros [Hsome _]%Forall_cons. rewrite Hnone in Hsome. by destruct Hsome. }
  rewrite Hc. eexists _, _, _, _. split; [done|].
  rewrite !getCachedData_ready; [done|by apply ready_after, Hr|done..].
Qed.

(** X3.  A storage that does not open: every operation is rejected with the
    opening error and the storage stays as it is. *)
Theorem closed_storage_rejects_everything s name data key :
  openable s = false →
  cacheData property name data s = (Rejected "Error opening IndexedDB.", s)
  ∧ getCachedData name s = (Rejected "Error opening IndexedDB.", s)
  ∧ getMetadata key s = (Rejected "Error opening IndexedDB.", s)
  ∧ clearCache s = (Rejected "Error opening IndexedDB.", s).
Proof.
  intros Ho.
  unfold cacheData, getCachedData, getMetadata, clearCache, idb_bind, openDB.
  by rewrite Ho.
Qed.

End dbServiceMore.

Lemma cacheData_leaves_other_stores_witness :
  let data := [ResidentItem (resident "R1" None)] in
  ready (@empty_storage CachedItem)
  ∧ "residents" ∈ STORES ∧ "evac_centers" ∈ STORES
  ∧ "evac_centers" ≠ "residents"
  ∧ ∃ l s1 s2,
      getCachedData "evac_centers" (@empty_storage CachedItem) = (Fulfilled l, s1)
      ∧ getCachedData "evac_centers"
          (cacheData item_property "residents" data empty_storage).2
        = (Fulfilled l, s2)
      ∧ (keyed item_property (keyPath "residents") data →
         (cacheData item_property "residents" data ;;; getCachedData "evac_centers")
           empty_storage = (Fulfilled l, s2)).
Proof.
  intros data.
  assert ("residents" ∈ STORES) as Hn by repeat constructor.
  assert ("evac_centers" ∈ STORES) as Ho by repeat constructor.
  assert ("evac_centers" ≠ "residents") as Hne by discriminate.
  split_and!; [apply empty_storage_ready|done..|].
  exact (cacheData_leaves_other_stores item_property empty_storage "residents"
           "evac_centers" data empty_storage_ready Hn Ho Hne).
Defined.

Lemma cacheData_unknown_store_changes_nothing_witness :
  let data := [ResidentItem (resident "R1" None)] in
  ready (@empty_storage CachedItem)
  ∧ opened (@empty_storage CachedItem) !! "users" = None
  ∧ "residents" ∈ STORES
  ∧ ∃ s1 l s2 s3,
      cacheData item_property "users" data empty_storage
      = (Rejected "NotFoundError", s1)
      ∧ getCachedData "residents" empty_storage = (Fulfilled l, s2)
      ∧ getCachedData "residents" s1 = (Fulfilled l, s3).
Proof.
  intros data.
  assert (opened (@empty_storage CachedItem) !! "users" = None) as Hnone
    by (vm_compute; reflexivity).
  assert ("residents" ∈ STORES) as Hn by repeat constructor.
  split_and!; [apply empty_storage_ready|done..|].
  exact (cacheData_unknown_store_changes_nothing item_property empty_storage "users"
           data "residents" empty_storage_ready Hnone Hn).
Defined.

Lemma closed_storage_rejects_everything_witness :
  openable (@closed_storage CachedItem) = false
  ∧ getCachedData "residents" (@closed_storage CachedItem)
    = (Rejected "Error opening IndexedDB.", closed_storage).
Proof.
  split; [reflexivity|].
  exact (proj1 (proj2 (closed_storage_rejects_everything item_property
                         closed_storage "residents" [] "cacheInfo" eq_refl))).
Defined.


Section metadataFacts.
Context {Item Value : Type} (keyOf : Item → string) (entry : string → Value → Item).
Hypothesis keyOf_entry : ∀ key value, keyOf (entry key value) = key.
Implicit Types (s : IndexedDB Item).




End metadataFacts.



(** ** The dashboard: counts, lists and rosters agree *)





Lemma evacChartData_elem centers W d :
  d ∈ evacChartData centers W →
  ∃ c, c ∈ centers ∧ d = center_stat (occupancyMap W) c.
Proof.
  unfold evacChartData. rewrite array_sort_perm.
  intros [_ (c & -> & Hc)%list_elem_of_fmap]%list_elem_of_filter. by exists c.
Qed.

(** X8.  In the state a fetch leaves when the event, the ids, the log and the
    centers were all read, the occupancy shown for a center is the size of the
    roster its row opens, and a row with occupancy 0 opens nothing.  When the
    centers could not be read, the fetch says nothing and the statistics stay
    those of the earlier state, beside the new rosters. *)
Theorem occupancy_is_the_roster_size b fm fb st ev ids :
  select_active_event b = Some ev →
  select_resident_ids b fm fb = Some ids →
  status_log_error b = false →
  let st' := (fetchData b fm fb st).2 in
  (centers_error b = false →
   ∀ d, d ∈ evacStats st' →
     occupancy d = length (default [] (JsMap.get (stat_id d) (evacCenterGroups st')))
     ∧ (occupancy d = 0 → evacClickIds (stat_id d) st' = None)
     ∧ (0 < occupancy d →
        ∃ l, evacClickIds (stat_id d) st' = Some l ∧ length l = occupancy d))
  ∧ (centers_error b = true → ids ≠ [] →
     (fetchData b fm fb st).1 = []
     ∧ evacStats st' = evacStats st
     ∧ evacCenterGroups st' = newEvacGroups (tally (winners b (event_id ev) ids))).
Proof.
  intros Hev Hids Herr st'.
  destruct (fetchData_resolves b fm fb st ev ids Hev Hids Herr)
    as (st1 & Hfd & _ & _ & Hevac).
  assert (st' = st1) as Hst by (subst st'; by rewrite Hfd).
  split.
  - intros Hcen d Hd.
    pose proof (fetchData_evacStats b fm fb st ev ids Hev Hids Herr Hcen) as Hstats.
    fold st' in Hstats. rewrite Hstats in Hd.
    case_bool_decide; [by apply elem_of_nil in Hd|].
    apply evacChartData_elem in Hd as (c & _ & ->).
    cbn [occupancy stat_id center_stat].
    assert (default 0 (JsMap.get (center_id c)
                         (occupancyMap (winners b (event_id ev) ids)))
            = length (default [] (JsMap.get (center_id c) (evacCenterGroups st'))))
      as Hocc.
    { rewrite Hst, Hevac, newEvacGroups_tally, length_fmap. apply occupancyMap_get. }
    unfold evacClickIds. rewrite Hocc. split_and!; [done|..].
    + intros H0. by rewrite bool_decide_eq_true_2.
    + intros Hpos. rewrite bool_decide_eq_false_2 by lia. by eexists.
  - intros Hcen Hne. split_and!.
    + by rewrite Hfd.
    + subst st'. unfold fetchData. rewrite Hev, Hids.
      rewrite bool_decide_eq_false_2 by (by intros ?%nil_length_inv).
      unfold select_status_log. rewrite Herr. cbn [snd]. unfold resolve, select_centers.
      by rewrite Hcen.
    + by rewrite Hst.
Qed.

(** Scenario A: C1 shows the occupancy 1 and opens a roster of one. *)
Lemma occupancy_is_the_roster_size_witness :
  let st' := (fetchData scenario_A "all" "all" initialDashboard).2 in
  let d := {| stat_id := "C1"; stat_name := "C1"; occupancy := 1;
              stat_capacity := 10 |} in
  select_active_event scenario_A = Some event_E1
  ∧ select_resident_ids scenario_A "all" "all" = Some ["R1"; "R2"; "R3"]
  ∧ status_log_error scenario_A = false
  ∧ centers_error scenario_A = false
  ∧ d ∈ evacStats st'
  ∧ occupancy d = length (default [] (JsMap.get (stat_id d) (evacCenterGroups st'))).
Proof.
  intros st' d.
  assert (d ∈ evacStats st') as Hd by (vm_compute; apply list_elem_of_here).
  split_and!; [reflexivity..|done|].
  exact (proj1 (proj1 (occupancy_is_the_roster_size scenario_A "all" "all"
                         initialDashboard event_E1 ["R1"; "R2"; "R3"]
                         eq_refl eq_refl eq_refl) eq_refl d Hd)).
Defined.

(** X9.  In the state a fetch leaves when the event, the ids and the log were
    read, everyone on the roster of a center is one of the residents the
    fetch listed and is resolved to Evacuated, as the roster's rows are
    labelled. *)
Theorem roster_members_are_evacuated b fm fb st ev ids centerId id :
  select_active_event b = Some ev →
  select_resident_ids b fm fb = Some ids →
  status_log_error b = false →
  let st' := (fetchData b fm fb st).2 in
  id ∈ default [] (JsMap.get centerId (evacCenterGroups st')) →
  id ∈ allAffectedIds st'
  ∧ foundStatus (statusGroups st') id = status_name Evacuated
  ∧ id ∈ default [] (JsMap.get (status_name Evacuated) (statusGroups st')).
Proof.
  intros Hev Hids Herr st' Hin.
  destruct (fetchData_resolves b fm fb st ev ids Hev Hids Herr)
    as (st1 & Hfd & _ & Hfound & Hevac).
  assert (st' = st1) as Hst by (subst st'; by rewrite Hfd).
  pose proof (fetchData_statusGroups b fm fb st ev ids Hev Hids Herr) as Hgroups.
  cbn zeta in Hgroups. fold st' in Hgroups.
  rewrite Hst, Hevac, newEvacGroups_tally in Hin.
  apply list_elem_of_fmap in Hin as (e & -> & [Hc He]%list_elem_of_filter).
  pose proof (in_center_Evacuated _ _ Hc) as Hs.
  assert (resident_id e ∈ ids) as Hids'.
  { pose proof (winners_in_ids b (event_id ev) ids) as Hall.
    rewrite Forall_forall in Hall. by apply Hall. }
  split_and!.
  - assert (allAffectedIds st' = ids) as ->; [|done].
    subst st'. unfold fetchData. rewrite Hev, Hids.
    case_bool_decide; [done|]. unfold select_status_log. rewrite Herr.
    unfold resolve. by destruct (select_centers b).
  - rewrite Hst, Hfound. f_equal. unfold resolved_status.
    apply winning_elem in He. by rewrite He.
  - rewrite Hgroups. case_bool_decide as Hlen.
    + apply nil_length_inv in Hlen. subst ids. by apply elem_of_nil in Hids'.
    + rewrite get_by_status. cbn. rewrite decide_False by done.
      apply list_elem_of_fmap. exists e. split; [done|].
      by apply list_elem_of_filter.
Qed.

(** An instance in the scenarios. *)
Lemma roster_members_are_evacuated_witness :
  let st' := (fetchData scenario_A "all" "all" initialDashboard).2 in
  select_active_event scenario_A = Some event_E1
  ∧ select_resident_ids scenario_A "all" "all" = Some ["R1"; "R2"; "R3"]
  ∧ status_log_error scenario_A = false
  ∧ "R1" ∈ default [] (JsMap.get "C1" (evacCenterGroups st'))
  ∧ foundStatus (statusGroups st') "R1" = status_name Evacuated.
Proof.
  intros st'.
  assert ("R1" ∈ default [] (JsMap.get "C1" (evacCenterGroups st'))) as Hin
    by (vm_compute; apply list_elem_of_here).
  split_and!; [reflexivity..|done|].
  exact (proj1 (proj2 (roster_members_are_evacuated scenario_A "all" "all"
                         initialDashboard event_E1 ["R1"; "R2"; "R3"] "C1" "R1"
                         eq_refl eq_refl eq_refl Hin))).
Defined.

(** ** The status groups split the resident list *)

Lemma concat_by_status {A} (g : ResidentStatus → list A) :
  concat (JsMap.values (by_status g))
  = g Safe ++ g Evacuated ++ g Injured ++ g Missing ++ g Deceased ++ g Unknown.
Proof. cbn. by rewrite app_nil_r. Qed.

Lemma tallied_split L :
  tallied Safe L ++ tallied Evacuated L ++ tallied Injured L
  ++ tallied Missing L ++ tallied Deceased L ++ tallied Unknown L ≡ₚ L.
Proof.
  unfold tallied. induction L as [|x L IH]; [done|].
  rewrite !filter_cons.
  destruct (status x) eqn:Hs; repeat case_decide; try congruence; cbn;
    rewrite <-?Permutation_middle; by rewrite IH.
Qed.

Lemma known_perm ids (W : list LogEntry) :
  NoDup ids → NoDup (resident_id <$> W) →
  Forall (λ e, resident_id e ∈ ids) W →
  filter (λ id, id ∈ knownIds W) ids ≡ₚ resident_id <$> W.
Proof.
  intros Hids HW Hsub.
  apply NoDup_Permutation; [by apply NoDup_filter|done|].
  intros id. rewrite list_elem_of_filter. unfold knownIds.
  rewrite elem_of_list_to_set. split; [tauto|].
  intros Hin. split; [done|].
  apply list_elem_of_fmap in Hin as (e & -> & He).
  rewrite Forall_forall in Hsub. by apply Hsub.
Qed.

(** X10.  With distinct ids and no Unknown row, the status groups taken together
    are the resident list, each resident once: no resident is in two groups
    and none is missing. *)
Theorem status_groups_split_the_residents b fm fb st ev ids :
  select_active_event b = Some ev →
  select_resident_ids b fm fb = Some ids →
  status_log_error b = false →
  NoDup ids →
  Forall (λ r, row_event_id r = event_id ev → row_status r ≠ Unknown)
    (resident_status_log b) →
  concat (JsMap.values (statusGroups (fetchData b fm fb st).2)) ≡ₚ ids.
Proof.
  intros Hev Hids Herr Hnd Hlog.
  rewrite (fetchData_statusGroups b fm fb st ev ids Hev Hids Herr).
  case_bool_decide as Hlen.
  { apply nil_length_inv in Hlen. by subst ids. }
  set (W := winners b (event_id ev) ids).
  rewrite concat_by_status.
  repeat (rewrite decide_False by discriminate). rewrite decide_True by done.
  assert (tallied Unknown W = []) as HU.
  { apply length_zero_iff_nil, tallied_none.
    by apply (winners_status b _ ids (λ s, s ≠ Unknown)). }
  pose proof (tallied_split W) as Hsplit. rewrite HU, app_nil_r in Hsplit.
  apply (fmap_Permutation resident_id) in Hsplit. rewrite !fmap_app in Hsplit.
  transitivity ((resident_id <$> W) ++ unknownIds ids W).
  { rewrite <-Hsplit. by rewrite <-!app_assoc. }
  rewrite <-(known_perm ids W Hnd (winning_NoDup _) (winners_in_ids _ _ _)).
  unfold unknownIds. apply filter_app_complement.
Qed.

(** An instance in the scenarios. *)
Lemma status_groups_split_the_residents_witness :
  select_active_event scenario_A = Some event_E1
  ∧ select_resident_ids scenario_A "all" "all" = Some ["R1"; "R2"; "R3"]
  ∧ status_log_error scenario_A = false
  ∧ NoDup ["R1"; "R2"; "R3"]
  ∧ Forall (λ r, row_event_id r = event_id event_E1 → row_status r ≠ Unknown)
      (resident_status_log scenario_A)
  ∧ concat (JsMap.values
              (statusGroups (fetchData scenario_A "all" "all" initialDashboard).2))
    ≡ₚ ["R1"; "R2"; "R3"].
Proof.
  assert (Forall (λ r, row_event_id r = event_id event_E1 → row_status r ≠ Unknown)
            (resident_status_log scenario_A)) as Hlog.
  { repeat constructor; cbn; intros _; discriminate. }
  split_and!; [reflexivity..|apply scenario_A_ids_NoDup|done|].
  exact (status_groups_split_the_residents scenario_A "all" "all" initialDashboard
           event_E1 ["R1"; "R2"; "R3"] eq_refl eq_refl eq_refl
           scenario_A_ids_NoDup Hlog).
Defined.

(** ** A resident's status depends on its own rows only *)


(** X11.  Narrowing or widening the geographic filter changes which residents
    are listed, never the status of a resident that stays listed. *)
Theorem status_does_not_depend_on_the_filter b st ev fm fb ids fm' fb' ids' id :
  select_active_event b = Some ev →
  status_log_error b = false →
  select_resident_ids b fm fb = Some ids →
  select_resident_ids b fm' fb' = Some ids' →
  id ∈ ids → id ∈ ids' →
  foundStatus (statusGroups (fetchData b fm fb st).2) id
  = foundStatus (statusGroups (fetchData b fm' fb' st).2) id.
Proof.
  intros Hev Herr Hids Hids' Hin Hin'.
  destruct (fetchData_resolves b fm fb st ev ids Hev Hids Herr)
    as (st1 & -> & _ & -> & _).
  destruct (fetchData_resolves b fm' fb' st ev ids' Hev Hids' Herr)
    as (st2 & -> & _ & -> & _).
  by rewrite !resolved_status_own.
Qed.

(** Two towns: R1 is listed with and without the filter on its town, R2
    only without it, and R1 is shown as Injured both times. *)
Lemma status_does_not_depend_on_the_filter_witness :
  select_active_event two_towns = Some event_E1
  ∧ status_log_error two_towns = false
  ∧ select_resident_ids two_towns "all" "all" = Some ["R1"; "R2"]
  ∧ select_resident_ids two_towns "M1" "all" = Some ["R1"]
  ∧ "R1" ∈ ["R1"; "R2"] ∧ "R1" ∈ ["R1"]
  ∧ foundStatus (statusGroups (fetchData two_towns "all" "all" initialDashboard).2) "R1"
    = foundStatus (statusGroups (fetchData two_towns "M1" "all" initialDashboard).2) "R1"
  ∧ fetchData two_towns "all" "all" initialDashboard
    ≠ fetchData two_towns "M1" "all" initialDashboard.
Proof.
  assert ("R1" ∈ ["R1"; "R2"]) as Hin by apply list_elem_of_here.
  assert ("R1" ∈ ["R1"]) as Hin' by apply list_elem_of_here.
  split_and!; [reflexivity..|done|done| |discriminate].
  exact (status_does_not_depend_on_the_filter two_towns initialDashboard event_E1
           "all" "all" ["R1"; "R2"] "M1" "all" ["R1"] "R1"
           eq_refl eq_refl eq_refl eq_refl Hin Hin').
Defined.

(** ** The order of the rows *)

(** The latest millisecond wins whatever the order: two lists with the same
    entries for a resident resolve it alike, provided entries within one
    millisecond agree on the status. *)
Lemma resolved_status_perm logs logs' id :
  filter (λ x, resident_id x = id) logs ≡ₚ filter (λ x, resident_id x = id) logs' →
  (∀ x y, x ∈ logs → y ∈ logs → resident_id x = id → resident_id y = id →
          getTime (timestamp x) = getTime (timestamp y) → status x = status y) →
  resolved_status logs id = resolved_status logs' id.
Proof.
  intros Hperm Hsame. unfold resolved_status.
  assert (∀ x, resident_id x = id → x ∈ logs ↔ x ∈ logs') as Hmem.
  { intros x Hx. split; intros Hin.
    - assert (x ∈ filter (λ x, resident_id x = id) logs) as Hf
        by (by apply list_elem_of_filter).
      rewrite Hperm in Hf. by apply list_elem_of_filter in Hf as [_ ?].
    - assert (x ∈ filter (λ x, resident_id x = id) logs') as Hf
        by (by apply list_elem_of_filter).
      rewrite <-Hperm in Hf. by apply list_elem_of_filter in Hf as [_ ?]. }
  assert (∀ l e, JsMap.get id (latestStatusMap l) = Some e →
                 resident_id e = id ∧ e ∈ l
                 ∧ ∀ x, x ∈ l → resident_id x = id → (getTime (timestamp x) ≤ getTime (timestamp e))%Z)
    as Hmax.
  { intros l e He. pose proof (latestStatusMap_get l id) as H. rewrite He in H.
    destruct H as (Hid & l1 & l2 & -> & H1 & H2). split_and!; [done|..].
    - apply elem_of_app. right. apply list_elem_of_here.
    - intros x Hx Hr. rewrite Forall_forall in H1, H2.
      apply elem_of_app in Hx as [Hx|[->|Hx]%elem_of_cons].
      + specialize (H1 _ Hx Hr). lia.
      + lia.
      + by apply H2. }
  pose proof (latestStatusMap_get logs id) as H.
  pose proof (latestStatusMap_get logs' id) as H'.
  destruct (JsMap.get id (latestStatusMap logs)) as [e|] eqn:He,
           (JsMap.get id (latestStatusMap logs')) as [e'|] eqn:He'.
  - destruct (Hmax _ _ He) as (Hr & Hin & Hle).
    destruct (Hmax _ _ He') as (Hr' & Hin' & Hle').
    apply Hmem in Hin' as Hin2; [|done]. apply Hmem in Hin as Hin3; [|done].
    apply Hsame; [done..|].
    specialize (Hle _ Hin2 Hr'). specialize (Hle' _ Hin3 Hr). lia.
  - destruct (Hmax _ _ He) as (Hr & Hin & _). apply Hmem in Hin; [|done].
    rewrite Forall_forall in H'. by destruct (H' _ Hin).
  - destruct (Hmax _ _ He') as (Hr' & Hin' & _). apply Hmem in Hin'; [|done].
    rewrite Forall_forall in H. by destruct (H _ Hin').
  - done.
Qed.

(** X12.  The store returns the rows in no stated order; when the rows of one
    resident that fall into one millisecond agree on the status, the order
    does not matter to the dashboard. *)
Theorem status_does_not_depend_on_row_order b fm fb st ev ids table id :
  select_active_event b = Some ev →
  select_resident_ids b fm fb = Some ids →
  status_log_error b = false →
  table ≡ₚ resident_status_log b →
  (∀ r r', r ∈ resident_status_log b → r' ∈ resident_status_log b →
           row_event_id r = event_id ev → row_event_id r' = event_id ev →
           row_resident_id r = row_resident_id r' →
           getTime (row_timestamp r) = getTime (row_timestamp r') → row_status r = row_status r') →
  id ∈ ids →
  foundStatus (statusGroups (fetchData (with_log table b) fm fb st).2) id
  = foundStatus (statusGroups (fetchData b fm fb st).2) id.
Proof.
  intros Hev Hids Herr Hperm Hsame Hin.
  destruct (fetchData_resolves b fm fb st ev ids Hev Hids Herr)
    as (st1 & -> & _ & -> & _).
  destruct (fetchData_resolves (with_log table b) fm fb st ev ids Hev Hids Herr)
    as (st2 & -> & _ & -> & _).
  cbn [snd]. f_equal.
  change (resident_status_log (with_log table b)) with table.
  symmetry. apply resolved_status_perm.
  - rewrite !own_entries by done. apply fmap_Permutation.
    unfold entries_of. by rewrite Hperm.
  - intros x y (r & -> & Hr & Hre & _)%entry_of_row_elem
      (r' & -> & Hr' & Hre' & _)%entry_of_row_elem Hx Hy Ht. cbn in *.
    apply Hsame; try done. congruence.
Qed.

(** An instance in the scenarios. *)
Lemma status_does_not_depend_on_row_order_witness :
  select_active_event scenario_A = Some event_E1
  ∧ select_resident_ids scenario_A "all" "all" = Some ["R1"; "R2"; "R3"]
  ∧ status_log_error scenario_A = false
  ∧ scenario_A_reordered ≡ₚ resident_status_log scenario_A
  ∧ "R1" ∈ ["R1"; "R2"; "R3"]
  ∧ foundStatus
      (statusGroups (fetchData (with_log scenario_A_reordered scenario_A)
                       "all" "all" initialDashboard).2) "R1"
    = foundStatus
        (statusGroups (fetchData scenario_A "all" "all" initialDashboard).2) "R1".
Proof.
  assert (scenario_A_reordered ≡ₚ resident_status_log scenario_A) as Hperm
    by apply perm_swap.
  assert ("R1" ∈ ["R1"; "R2"; "R3"]) as Hin by apply list_elem_of_here.
  assert (∀ r r', r ∈ resident_status_log scenario_A →
            r' ∈ resident_status_log scenario_A →
            row_event_id r = event_id event_E1 → row_event_id r' = event_id event_E1 →
            row_resident_id r = row_resident_id r' →
            getTime (row_timestamp r) = getTime (row_timestamp r') → row_status r = row_status r')
    as Hsame.
  { intros r r' Hr Hr' _ _ _ Ht. cbn in Hr, Hr'.
    each_member Hr; each_member Hr'; done. }
  split_and!; [reflexivity..|done|done|].
  exact (status_does_not_depend_on_row_order scenario_A "all" "all" initialDashboard
           event_E1 ["R1"; "R2"; "R3"] scenario_A_reordered "R1"
           eq_refl eq_refl eq_refl Hperm Hsame Hin).
Defined.

(** ** The residents page against the dashboard *)

Lemma statusMap_snoc logs x :
  statusMap (logs ++ [x]) = JsMap.set (resident_id x) (status x) (statusMap logs).
Proof. unfold statusMap. by rewrite foldl_app. Qed.

(** The residents page keeps the status of the last row of a resident. *)
Lemma statusMap_get logs id :
  JsMap.get id (statusMap logs)
  = status <$> last (filter (λ x, resident_id x = id) logs).
Proof.
  induction logs as [|x logs IH] using rev_ind; [done|].
  rewrite statusMap_snoc, filter_app, filter_cons, filter_nil.
  destruct (decide (resident_id x = id)) as [<-|Hne].
  - by rewrite get_set_eq, last_snoc.
  - by rewrite get_set_ne, app_nil_r.
Qed.

Lemma last_of_sorted (l : list LogEntry) z :
  StronglySorted (λ a b, (timestamp a ≤ timestamp b)%Z) l →
  last l = Some z → ∀ x, x ∈ l → (timestamp x ≤ timestamp z)%Z.
Proof.
  induction 1 as [|y l Hl IH Hy]; [done|].
  destruct l as [|y' l'].
  - intros [= ->] x ->%list_elem_of_singleton. lia.
  - rewrite last_cons_cons. intros Hz x [->|Hx]%elem_of_cons; [|by apply IH].
    rewrite Forall_forall in Hy. apply Hy. by apply last_Some_elem_of.
Qed.

Lemma StronglySorted_filter_time (P : LogEntry → Prop) `{!∀ x, Decision (P x)} l :
  StronglySorted (λ a b, (timestamp a ≤ timestamp b)%Z) l →
  StronglySorted (λ a b, (timestamp a ≤ timestamp b)%Z) (filter P l).
Proof.
  induction 1 as [|y l Hl IH Hy]; [constructor|].
  rewrite filter_cons. case_decide; [|done].
  constructor; [done|]. rewrite Forall_forall in Hy |- *.
  intros x [_ Hx]%list_elem_of_filter. by apply Hy.
Qed.

(** X13.  The residents page reads the rows in ascending order of their
    timestamps and keeps the last one; the dashboard compares the times cut to
    the millisecond and keeps the first of the latest.  The two show a resident
    with the same status provided the rows of the resident that fall into one
    millisecond agree on the status. *)
Theorem residents_page_agrees_with_dashboard logs sorted id :
  Sorted (λ a b, (timestamp a ≤ timestamp b)%Z) sorted →
  filter (λ x, resident_id x = id) sorted ≡ₚ filter (λ x, resident_id x = id) logs →
  (∀ x y, x ∈ logs → y ∈ logs → resident_id x = id → resident_id y = id →
          getTime (timestamp x) = getTime (timestamp y) → status x = status y) →
  listed_status sorted id = resolved_status logs id.
Proof.
  intros Hsorted Hperm Hsame.
  apply Sorted_StronglySorted in Hsorted; [|intros x y z; lia].
  unfold listed_status. rewrite statusMap_get.
  assert (∀ x, resident_id x = id → x ∈ sorted ↔ x ∈ logs) as Hmem.
  { intros x Hx. split; intros Hin.
    - assert (x ∈ filter (λ x, resident_id x = id) sorted) as Hf
        by (by apply list_elem_of_filter).
      rewrite Hperm in Hf. by apply list_elem_of_filter in Hf as [_ ?].
    - assert (x ∈ filter (λ x, resident_id x = id) logs) as Hf
        by (by apply list_elem_of_filter).
      rewrite <-Hperm in Hf. by apply list_elem_of_filter in Hf as [_ ?]. }
  unfold resolved_status.
  pose proof (latestStatusMap_get logs id) as H.
  destruct (last (filter (λ x, resident_id x = id) sorted)) as [z|] eqn:Hz.
  - pose proof (last_Some_elem_of _ _ Hz) as [Hzr Hzin]%list_elem_of_filter.
    pose proof (last_of_sorted _ z
                  (StronglySorted_filter_time (λ x, resident_id x = id) _ Hsorted) Hz)
      as Hzmax.
    destruct (JsMap.get id (latestStatusMap logs)) as [e|].
    + destruct H as (Hid & l1 & l2 & Hlogs & H1 & H2). cbn.
      assert (e ∈ logs) as He
        by (rewrite Hlogs; apply elem_of_app; right; apply list_elem_of_here).
      apply Hsame; [by apply Hmem|done..|].
      assert (getTime (timestamp e) ≤ getTime (timestamp z))%Z.
      { apply getTime_mono, Hzmax, list_elem_of_filter. split; [done|].
        by apply Hmem. }
      assert (getTime (timestamp z) ≤ getTime (timestamp e))%Z; [|lia].
      apply Hmem in Hzin; [|done]. rewrite Hlogs in Hzin.
      rewrite Forall_forall in H1, H2.
      apply elem_of_app in Hzin as [Hx|[->|Hx]%elem_of_cons].
      * specialize (H1 _ Hx Hzr). lia.
      * lia.
      * by apply H2.
    + apply Hmem in Hzin; [|done]. rewrite Forall_forall in H.
      by destruct (H _ Hzin).
  - apply last_None in Hz. cbn.
    destruct (JsMap.get id (latestStatusMap logs)) as [e|]; [|done].
    destruct H as (Hid & l1 & l2 & Hlogs & _). exfalso.
    assert (e ∈ filter (λ x, resident_id x = id) sorted) as Hin.
    { apply list_elem_of_filter. split; [done|]. apply Hmem; [done|].
      rewrite Hlogs. apply elem_of_app. right. apply list_elem_of_here. }
    rewrite Hz in Hin. by apply elem_of_nil in Hin.
Qed.

(** An instance in the scenarios. *)
Lemma residents_page_agrees_with_dashboard_witness :
  let logs := entry_of_row <$> scenario_A_reordered in
  let sorted := entry_of_row <$> resident_status_log scenario_A in
  Sorted (λ a b, (timestamp a ≤ timestamp b)%Z) sorted
  ∧ filter (λ x, resident_id x = "R1") sorted
    ≡ₚ filter (λ x, resident_id x = "R1") logs
  ∧ listed_status sorted "R1" = resolved_status logs "R1".
Proof.
  intros logs sorted.
  assert (Sorted (λ a b, (timestamp a ≤ timestamp b)%Z) sorted) as Hsorted.
  { repeat constructor; cbn; lia. }
  assert (filter (λ x, resident_id x = "R1") sorted
          ≡ₚ filter (λ x, resident_id x = "R1") logs) as Hperm
    by apply perm_swap.
  assert (∀ x y, x ∈ logs → y ∈ logs → resident_id x = "R1" → resident_id y = "R1" →
            getTime (timestamp x) = getTime (timestamp y) → status x = status y) as Hsame.
  { intros x y Hx Hy _ _ Ht. cbn in Hx, Hy.
    each_member Hx; each_member Hy; done. }
  split_and!; [done..|].
  exact (residents_page_agrees_with_dashboard logs sorted "R1" Hsorted Hperm Hsame).
Defined.

(** The proviso is needed: of two rows of R1 within one millisecond the
    residents page keeps the later one and the dashboard the one returned
    first. *)
Lemma pages_differ_within_a_millisecond :
  let logs := entry_of_row <$> resident_status_log same_millisecond in
  Sorted (λ a b, (timestamp a ≤ timestamp b)%Z) logs
  ∧ listed_status logs "R1" = Missing
  ∧ resolved_status logs "R1" = Safe.
Proof.
  intros logs. split_and!; [|reflexivity..].
  repeat constructor; cbn; lia.
Qed.

(** ** The status form: what it writes *)

(** X14.  Offline the form is read-only: as long as the connection does not come
    back, nothing it does changes the remote store. *)
Theorem offline_form_writes_nothing w es :
  online w = false →
  Forall (λ e, e ≠ Connectivity true) es →
  backend (run w es) = backend w ∧ online (run w es) = false.
Proof.
  revert w. induction es as [|e es IH]; intros w Hoff Hes; [done|].
  apply Forall_cons in Hes as [He Hes]. cbn.
  assert (backend (step w e) = backend w ∧ online (step w e) = false) as [Hb Ho].
  { destruct e as [[|]|r|o|v| |checked reply]; try done.
    - unfold step.
      by destruct (loadInitialData false (backend w) (page w) (storage w)) as [[? ?] ?].
    - unfold step, handleUpdateStatus. rewrite Hoff.
      by destruct (selectedResident (page w)), (page_activeEvent (page w)). }
  destruct (IH (step w e) Ho Hes) as [Hb' Ho']. unfold run in *.
  by rewrite Hb', Hb.
Qed.

(** An instance in the scenarios. *)
Lemma offline_form_writes_nothing_witness :
  let w := mount scenario_A cached_storage false in
  let es := [PickResident (resident "R1" None); Submit ["R1"] (Inserted 5)] in
  online w = false
  ∧ Forall (λ e, e ≠ Connectivity true) es
  ∧ backend (run w es) = backend w.
Proof.
  intros w es.
  assert (Forall (λ e, e ≠ Connectivity true) es) as Hes
    by (repeat constructor; discriminate).
  split_and!; [reflexivity|done|].
  exact (proj1 (offline_form_writes_nothing w es eq_refl Hes)).
Defined.

Lemma handleUpdateStatus_accepted st b checked now sel ev :
  selectedResident st = Some sel →
  page_activeEvent st = Some ev →
  (1 < length (familyMembers st) → checked ≠ []) →
  (handleUpdateStatus true checked (Inserted now) st b).1.2 = resetForm st
  ∧ (handleUpdateStatus true checked (Inserted now) st b).2
    = insert_status_log now
        (statusLogs (selectedIds checked sel st) (newStatus st) (event_id ev)
           (evacCenterId st)) b.
Proof.
  intros Hsel Hev Hchecked. unfold handleUpdateStatus, selectedIds.
  rewrite Hsel, Hev.
  assert (bool_decide (1 < length (familyMembers st))
          && bool_decide (length checked = 0) = false) as ->; [|done].
  apply andb_false_iff. destruct (decide (1 < length (familyMembers st))) as [Hf|Hf].
  - right. apply bool_decide_eq_false_2. intros Hl.
    by apply Hchecked, nil_length_inv.
  - left. by apply bool_decide_eq_false_2.
Qed.

Lemma statusLogs_ids ids s ev c now :
  row_resident_id <$> (stored_row now <$> statusLogs ids s ev c) = ids.
Proof.
  unfold statusLogs. rewrite <-!list_fmap_compose.
  induction ids as [|i ids IH]; [done|]. cbn. by f_equal.
Qed.

Lemma statusLogs_rows ids s ev c now r :
  r ∈ stored_row now <$> statusLogs ids s ev c →
  row_event_id r = ev ∧ row_timestamp r = now ∧ row_status r = s
  ∧ (row_evac_center_id r = None
     ∨ row_status r = Evacuated ∧ row_evac_center_id r = Some c
       ∧ truthy (row_evac_center_id r) = true).
Proof.
  unfold statusLogs. rewrite <-list_fmap_compose.
  intros (id & -> & _)%list_elem_of_fmap. cbn -[truthy]. split_and!; [done..|].
  case_bool_decide as Hs; [|by left].
  destruct (truthy (Some c)) eqn:Ht; [|by left].
  right. by rewrite Ht.
Qed.

(** X15.  A submitted form that the store accepts adds one row per selected id,
    for the active event and with the server's time and the chosen status; a
    center is recorded only with Evacuated and never as an empty id; the form
    is reset. *)
Theorem accepted_update_adds_one_row_per_id st b checked now sel ev :
  selectedResident st = Some sel →
  page_activeEvent st = Some ev →
  (1 < length (familyMembers st) → checked ≠ []) →
  let out := handleUpdateStatus true checked (Inserted now) st b in
  out.1.2 = resetForm st
  ∧ ∃ rows,
      resident_status_log out.2 = resident_status_log b ++ rows
      ∧ row_resident_id <$> rows = selectedIds checked sel st
      ∧ Forall (λ r, row_event_id r = event_id ev
                     ∧ row_timestamp r = now
                     ∧ row_status r = newStatus st
                     ∧ (row_evac_center_id r = None
                        ∨ row_status r = Evacuated
                          ∧ row_evac_center_id r = Some (evacCenterId st)
                          ∧ truthy (row_evac_center_id r) = true)) rows.
Proof.
  intros Hsel Hev Hchecked out. subst out.
  destruct (handleUpdateStatus_accepted st b checked now sel ev Hsel Hev Hchecked)
    as [Hform ->].
  split; [done|]. eexists. split; [done|]. split; [apply statusLogs_ids|].
  apply Forall_forall. intros r. apply statusLogs_rows.
Qed.

(** An instance in the scenarios. *)
Lemma accepted_update_adds_one_row_per_id_witness :
  let st := page form_for_R1 in
  selectedResident st = Some (resident "R1" None)
  ∧ page_activeEvent st = Some event_E1
  ∧ (1 < length (familyMembers st) → [] ≠ @nil string)
  ∧ (handleUpdateStatus true [] (Inserted 10) st scenario_A).1.2 = resetForm st.
Proof.
  intros st. split_and!; [reflexivity..|apply form_for_R1_checked|].
  exact (proj1 (accepted_update_adds_one_row_per_id st scenario_A [] 10
                  (resident "R1" None) event_E1 eq_refl eq_refl
                  form_for_R1_checked)).
Defined.

(** ** Recording a status and resolving it *)

Lemma log_rows_for_app ev ids t1 t2 :
  log_rows_for ev ids (t1 ++ t2) = log_rows_for ev ids t1 ++ log_rows_for ev ids t2.
Proof. unfold log_rows_for. apply filter_app. Qed.

(** X16.  After an accepted update for a resident, with a server time in a
    later millisecond than the resident's earlier rows, the dashboard shows
    the resident with the status that was recorded. *)
Theorem recorded_status_is_resolved st b checked now sel ev fm fb ids dst id :
  selectedResident st = Some sel →
  page_activeEvent st = Some ev →
  select_active_event b = Some ev →
  select_resident_ids b fm fb = Some ids →
  status_log_error b = false →
  id ∈ selectedIds checked sel st →
  id ∈ ids →
  Forall (λ r, row_event_id r = event_id ev → row_resident_id r = id →
               (getTime (row_timestamp r) < getTime now)%Z)
    (resident_status_log b) →
  let b' := (handleUpdateStatus true checked (Inserted now) st b).2 in
  foundStatus (statusGroups (fetchData b' fm fb dst).2) id
  = status_name (newStatus st).
Proof.
  intros Hsel Hev Hact Hids Herr Hid Hin Hold b'.
  assert (1 < length (familyMembers st) → checked ≠ []) as Hchecked.
  { intros Hf ->. unfold selectedIds in Hid.
    rewrite bool_decide_eq_true_2 in Hid by done. by apply elem_of_nil in Hid. }
  destruct (handleUpdateStatus_accepted st b checked now sel ev Hsel Hev Hchecked)
    as [_ Hb'].
  fold b' in Hb'. clearbody b'. subst b'.
  set (rows := stored_row now <$> statusLogs (selectedIds checked sel st)
                 (newStatus st) (event_id ev) (evacCenterId st)).
  set (b' := insert_status_log now _ b).
  assert (resident_status_log b' = resident_status_log b ++ rows) as Hlog by done.
  assert (row_resident_id <$> rows = selectedIds checked sel st) as Hrows
    by apply statusLogs_ids.
  assert (Forall (λ r, row_event_id r = event_id ev ∧ row_timestamp r = now
                       ∧ row_status r = newStatus st) rows) as Hall.
  { apply Forall_forall. intros r Hr.
    destruct (statusLogs_rows _ _ _ _ _ _ Hr) as (? & ? & ? & _). done. }
  assert (select_active_event b' = Some ev) as Hact' by done.
  assert (select_resident_ids b' fm fb = Some ids) as Hids' by done.
  assert (status_log_error b' = false) as Herr' by done.
  destruct (fetchData_resolves b' fm fb dst ev ids Hact' Hids' Herr')
    as (st1 & -> & _ & -> & _).
  cbn [snd]. f_equal. rewrite Hlog. unfold resolved_status.
  set (logs := entry_of_row <$> _).
  pose proof (latestStatusMap_get logs id) as H.
  assert (∃ r, r ∈ rows ∧ row_resident_id r = id) as (r & Hr & Hrid).
  { rewrite <-Hrows in Hid. apply list_elem_of_fmap in Hid as (r & -> & Hr). eauto. }
  rewrite Forall_forall in Hall. destruct (Hall _ Hr) as (Hre & Hrt & Hrs).
  assert (entry_of_row r ∈ logs) as Hnew.
  { subst logs. apply list_elem_of_fmap_2. rewrite log_rows_for_app.
    apply elem_of_app. right. apply list_elem_of_filter. by rewrite Hrid. }
  destruct (JsMap.get id (latestStatusMap logs)) as [e|].
  - destruct H as (Hid' & l1 & l2 & Hlogs & H1 & H2).
    assert (e ∈ logs) as He
      by (rewrite Hlogs; apply elem_of_app; right; apply list_elem_of_here).
    assert (getTime (timestamp (entry_of_row r)) ≤ getTime (timestamp e))%Z as Hle.
    { rewrite Hlogs in Hnew. rewrite Forall_forall in H1, H2.
      apply elem_of_app in Hnew as [Hx|[->|Hx]%elem_of_cons].
      - specialize (H1 _ Hx Hrid). lia.
      - lia.
      - by apply H2. }
    cbn in Hle. rewrite Hrt in Hle.
    subst logs. apply list_elem_of_fmap in He as (r0 & -> & Hr0).
    rewrite log_rows_for_app in Hr0.
    apply elem_of_app in Hr0 as [Hr0|Hr0].
    + apply list_elem_of_filter in Hr0 as [[Hre0 _] Hr0]. cbn in *.
      rewrite Forall_forall in Hold. specialize (Hold _ Hr0 Hre0 Hid'). lia.
    + apply list_elem_of_filter in Hr0 as [_ Hr0]. cbn.
      by destruct (Hall _ Hr0) as (_ & _ & ?).
  - rewrite Forall_forall in H. by destruct (H _ Hnew).
Qed.

(** Scenario A: R2, so far Missing, is recorded as Safe and shown as Safe. *)
Lemma recorded_status_is_resolved_witness :
  let st := page form_for_R2 in
  let b' := (handleUpdateStatus true [] (Inserted 10000) st scenario_A).2 in
  selectedResident st = Some (resident "R2" None)
  ∧ page_activeEvent st = Some event_E1
  ∧ select_active_event scenario_A = Some event_E1
  ∧ select_resident_ids scenario_A "all" "all" = Some ["R1"; "R2"; "R3"]
  ∧ status_log_error scenario_A = false
  ∧ "R2" ∈ selectedIds [] (resident "R2" None) st
  ∧ "R2" ∈ ["R1"; "R2"; "R3"]
  ∧ Forall (λ r, row_event_id r = event_id event_E1 → row_resident_id r = "R2" →
                 (getTime (row_timestamp r) < getTime 10000)%Z)
      (resident_status_log scenario_A)
  ∧ foundStatus (statusGroups (fetchData scenario_A "all" "all" initialDashboard).2)
      "R2" = status_name Missing
  ∧ foundStatus (statusGroups (fetchData b' "all" "all" initialDashboard).2) "R2"
    = status_name Safe.
Proof.
  intros st b'.
  assert ("R2" ∈ selectedIds [] (resident "R2" None) st) as Hsel
    by (vm_compute; apply list_elem_of_here).
  assert ("R2" ∈ ["R1"; "R2"; "R3"]) as Hin by (right; left).
  assert (Forall (λ r, row_event_id r = event_id event_E1 → row_resident_id r = "R2" →
                       (getTime (row_timestamp r) < getTime 10000)%Z)
            (resident_status_log scenario_A))
    as Hold.
  { repeat constructor; intros _ _; vm_compute; reflexivity. }
  split_and!; [reflexivity..|done|done|done|reflexivity|].
  exact (recorded_status_is_resolved st scenario_A [] 10000 (resident "R2" None)
           event_E1 "all" "all" ["R1"; "R2"; "R3"] initialDashboard "R2"
           eq_refl eq_refl eq_refl eq_refl eq_refl Hsel Hin Hold).
Defined.

(** ** Selecting a resident *)

(** X17.  A scanned id that a loaded resident has selects that resident, who is
    then among the family members offered; an id that nobody has changes
    nothing and reports the error. *)
Theorem scan_selects_a_listed_resident residentId st :
  let out := handleScan residentId st in
  (residentId ∈ res_id <$> allResidents st →
   ∃ found, selectedResident out.2 = Some found
     ∧ res_id found = residentId
     ∧ found ∈ allResidents st
     ∧ found ∈ familyMembers out.2
     ∧ Forall (λ r, r = found
                    ∨ (r ∈ allResidents st
                       ∧ head_of_family_name r = head_of_family_name found))
         (familyMembers out.2))
  ∧ (residentId ∉ res_id <$> allResidents st →
     out = ([ShowToast "Resident ID not found in local records." ToastError], st)).
Proof.
  intros out. subst out. unfold handleScan.
  destruct (List.find _ (allResidents st)) as [found|] eqn:Hfind.
  - apply find_some in Hfind as [Hin Hid].
    apply bool_decide_eq_true in Hid. apply list_elem_of_In in Hin. split.
    + intros _. exists found. cbn. split_and!; [done..| |].
      * destruct (truthy (head_of_family_name found)); [|apply list_elem_of_here].
        by apply list_elem_of_filter.
      * destruct (truthy (head_of_family_name found)).
        -- apply Forall_forall. intros r [? ?]%list_elem_of_filter. by right.
        -- apply Forall_singleton. by left.
    + intros Hn. exfalso. apply Hn. apply list_elem_of_fmap. by exists found.
  - split; [|done]. intros (r & -> & Hr)%list_elem_of_fmap. exfalso.
    apply list_elem_of_In in Hr.
    pose proof (find_none _ _ Hfind r Hr) as Hb. cbn in Hb.
    by apply bool_decide_eq_false in Hb.
Qed.

(** ** Downloading for offline use, then loading offline *)





(** X19.  Offline with a storage that does not open, the load stops at the first
    cache read: the page keeps what it held and stays in its loading state. *)
Theorem offline_load_without_storage_keeps_loading b st idb :
  openable idb = false →
  let out := loadInitialData false b st idb in
  out.1.1 = [ShowToast "You are offline. Showing cached data." ToastSuccess;
             uncaught "Error opening IndexedDB."]
  ∧ page_isLoading out.1.2 = true
  ∧ allResidents out.1.2 = allResidents st
  ∧ evacCenters out.1.2 = evacCenters st
  ∧ page_activeEvent out.1.2 = page_activeEvent st
  ∧ out.2 = idb.
Proof.
  intros Ho out. subst out. unfold loadInitialData, getCachedData, idb_bind, openDB.
  by rewrite Ho.
Qed.

(** An instance in the scenarios. *)
Lemma offline_load_without_storage_keeps_loading_witness :
  openable (@closed_storage CachedItem) = false
  ∧ page_isLoading
      (loadInitialData false scenario_A initialStatusPage closed_storage).1.2 = true.
Proof.
  split; [reflexivity|].
  exact (proj1 (proj2 (offline_load_without_storage_keeps_loading scenario_A
                         initialStatusPage closed_storage eq_refl))).
Defined.

(** ** App: the location data *)

Lemma elem_of_snoc_iff {A} (x y : A) l : x ∈ l ++ [y] ↔ x ∈ l ∨ x = y.
Proof. by rewrite elem_of_app, list_elem_of_singleton. Qed.

Lemma get_ensure_ne k k' g : k ≠ k' → JsMap.get k' (ensure k g) = JsMap.get k' g.
Proof.
  intros Hne. unfold ensure. destruct (JsMap.get k g); [done|]. by apply get_set_ne.
Qed.

Lemma NoDup_keys_ensure k g : NoDup (JsMap.keys g) → NoDup (JsMap.keys (ensure k g)).
Proof. unfold ensure. destruct (JsMap.get k g); [done|]. apply NoDup_keys_set. Qed.

Lemma NoDup_keys_push k x g : NoDup (JsMap.keys g) → NoDup (JsMap.keys (push k x g)).
Proof. unfold push. destruct (JsMap.get k g); [|done]. apply NoDup_keys_set. Qed.

Lemma reducedData_snoc data r :
  reducedData (data ++ [r]) = locationStep (reducedData data) r.
Proof. unfold reducedData. by rewrite foldl_app. Qed.

Lemma reducedData_NoDup data : NoDup (JsMap.keys (reducedData data)).
Proof.
  induction data as [|r data IH] using rev_ind; [constructor|].
  rewrite reducedData_snoc. unfold locationStep.
  case_bool_decide; [by apply NoDup_keys_ensure|].
  by apply NoDup_keys_push, NoDup_keys_ensure.
Qed.

Lemma reducedData_get data m :
  match JsMap.get m (reducedData data) with
  | Some l =>
      NoDup l ∧ l ≠ []
      ∧ ∀ b, b ∈ l ↔ ∃ r, r ∈ data ∧ brgy_municipality r = m ∧ brgy_barangay r = b
  | None => ∀ r, r ∈ data → brgy_municipality r ≠ m
  end.
Proof.
  induction data as [|r data IH] using rev_ind.
  { cbn. intros r Hr. by apply elem_of_nil in Hr. }
  rewrite reducedData_snoc. unfold locationStep.
  set (acc := reducedData data) in *.
  destruct (decide (brgy_municipality r = m)) as [Hm|Hm].
  - rewrite Hm. rewrite get_ensure.
    assert (NoDup (default [] (JsMap.get m acc))
            ∧ ∀ b, b ∈ default [] (JsMap.get m acc)
                   ↔ ∃ r, r ∈ data ∧ brgy_municipality r = m ∧ brgy_barangay r = b)
      as [Hnd Hmem].
    { destruct (JsMap.get m acc) as [l|]; cbn.
      - destruct IH as (? & _ & ?). done.
      - split; [constructor|]. intros b. split; [by intros ?%elem_of_nil|].
        intros (r' & Hr' & Hm' & _). by destruct (IH r' Hr'). }
    case_bool_decide as Hin.
    + rewrite get_ensure. split_and!; [done| |].
      * intros Hnil. rewrite Hnil in Hin. by apply elem_of_nil in Hin.
      * intros b. rewrite Hmem. split.
        -- intros (r' & Hr' & ?). exists r'. split; [|done].
           apply elem_of_app. by left.
        -- intros (r' & [Hr' | ->]%elem_of_snoc_iff & Hm' & <-).
           ++ by exists r'.
           ++ by apply Hmem.
    + rewrite get_push_ensure_eq. split_and!.
      * apply NoDup_app. split_and!; [done| |apply NoDup_singleton].
        intros b Hb Hb'%list_elem_of_singleton. by subst b.
      * by intros [? ?]%app_eq_nil.
      * intros b. rewrite elem_of_app, list_elem_of_singleton, Hmem. split.
        -- intros [(r' & Hr' & ?)| ->].
           ++ exists r'. split; [|done]. apply elem_of_app. by left.
           ++ exists r. split; [|done]. apply elem_of_app. right. apply list_elem_of_here.
        -- intros (r' & [Hr' | ->]%elem_of_snoc_iff & Hm' & <-).
           ++ left. by exists r'.
           ++ by right.
  - assert (JsMap.get m (if bool_decide (brgy_barangay r
                ∈ default [] (JsMap.get (brgy_municipality r)
                                (ensure (brgy_municipality r) acc)))
              then ensure (brgy_municipality r) acc
              else push (brgy_municipality r) (brgy_barangay r)
                     (ensure (brgy_municipality r) acc))
            = JsMap.get m acc) as ->.
    { case_bool_decide; [by apply get_ensure_ne|by apply get_push_ensure_ne]. }
    destruct (JsMap.get m acc) as [l|].
    + destruct IH as (Hnd & Hne & Hmem). split_and!; [done..|].
      intros b. rewrite Hmem. split.
      * intros (r' & Hr' & ?). exists r'. split; [|done]. apply elem_of_app. by left.
      * intros (r' & [Hr' | ->]%elem_of_snoc_iff & Hm' & <-);
          [by exists r'|done].
    + intros r' [Hr' | ->]%elem_of_snoc_iff; [by apply IH|done].
Qed.

(** X20.  The location data holds one list per municipality of the table; a
    municipality's list is never empty and holds each barangay that a row
    gives it, once. *)
Theorem location_data_lists_each_barangay_once data :
  NoDup (JsMap.keys (reducedData data))
  ∧ ∀ m,
      (m ∈ JsMap.keys (reducedData data)
       ↔ ∃ r, r ∈ data ∧ brgy_municipality r = m)
      ∧ ∀ l, JsMap.get m (reducedData data) = Some l →
          NoDup l ∧ l ≠ []
          ∧ ∀ b, b ∈ l
                 ↔ ∃ r, r ∈ data ∧ brgy_municipality r = m ∧ brgy_barangay r = b.
Proof.
  split; [apply reducedData_NoDup|]. intros m.
  pose proof (reducedData_get data m) as H. split.
  - destruct (JsMap.get m (reducedData data)) as [l|] eqn:Hg.
    + destruct H as (_ & Hne & Hmem). split.
      * intros _. destruct l as [|b l]; [done|].
        destruct (proj1 (Hmem b)) as (r & ? & ? & _); [apply list_elem_of_here|].
        by exists r.
      * intros _. apply dec_stable. intros Hn. apply get_None_keys in Hn. congruence.
    + apply get_None_keys in Hg. split; [done|]. intros (r & Hr & Hm).
      by destruct (H r Hr).
  - intros l Hl. by rewrite Hl in H.
Qed.

Lemma inner_loop_get (m : string) l map b :
  JsMap.get b (foldl (λ map barangay, JsMap.set barangay m map) map l)
  = if decide (b ∈ l) then Some m else JsMap.get b map.
Proof.
  revert map. induction l as [|x l IH]; intros map; cbn [foldl].
  { rewrite decide_False; [done|apply not_elem_of_nil]. }
  rewrite IH. destruct (decide (b ∈ l)) as [Hl|Hl].
  - rewrite decide_True; [done|]. by apply list_elem_of_further.
  - destruct (decide (b = x)) as [->|Hx].
    + rewrite decide_True by apply list_elem_of_here. apply get_set_eq.
    + rewrite decide_False by (by intros [?|?]%elem_of_cons).
      by apply get_set_ne.
Qed.

Lemma barangayToMunicipalityMap_get locationData b :
  match JsMap.get b (barangayToMunicipalityMap locationData) with
  | Some m => ∃ l, (m, l) ∈ locationData ∧ b ∈ l
  | None => ∀ m l, (m, l) ∈ locationData → b ∉ l
  end.
Proof.
  unfold barangayToMunicipalityMap.
  induction locationData as [|[m l] ld IH] using rev_ind.
  { cbn. intros m l H. by apply elem_of_nil in H. }
  rewrite foldl_app. cbn [foldl fst snd]. rewrite inner_loop_get.
  destruct (decide (b ∈ l)) as [Hl|Hl].
  - exists l. split; [|done]. apply elem_of_app. right. apply list_elem_of_here.
  - destruct (JsMap.get b _) as [m'|].
    + destruct IH as (l' & ? & ?). exists l'. split; [|done].
      apply elem_of_app. by left.
    + intros m' l' [H|H]%elem_of_snoc_iff; [by eapply IH|].
      by injection H as -> ->.
Qed.

(** X21.  The municipality the app looks up for a barangay is one that the table
    lists the barangay under, and every barangay of the table has one. *)
Theorem barangay_map_names_a_listing_municipality data b :
  match JsMap.get b (barangayToMunicipalityMap (reducedData data)) with
  | Some m => ∃ r, r ∈ data ∧ brgy_municipality r = m ∧ brgy_barangay r = b
  | None => ∀ r, r ∈ data → brgy_barangay r ≠ b
  end.
Proof.
  pose proof (barangayToMunicipalityMap_get (reducedData data) b) as H.
  destruct (JsMap.get b _) as [m|].
  - destruct H as (l & Hl & Hb).
    apply elem_get_Some in Hl; [|apply reducedData_NoDup].
    pose proof (reducedData_get data m) as Hg. rewrite Hl in Hg.
    destruct Hg as (_ & _ & Hmem). by apply Hmem.
  - intros r Hr Hb.
    pose proof (reducedData_get data (brgy_municipality r)) as Hg.
    destruct (JsMap.get (brgy_municipality r) (reducedData data)) as [l|] eqn:Hl.
    + destruct Hg as (_ & _ & Hmem). apply get_Some_elem in Hl.
      apply (H _ _ Hl). apply Hmem. by exists r.
    + by apply (Hg r Hr).
Qed.

(** X22.  Where no barangay name is used in two municipalities, the lookup gives
    each barangay of the table its municipality. *)
Theorem barangay_map_finds_the_municipality data r :
  r ∈ data →
  (∀ r', r' ∈ data → brgy_barangay r' = brgy_barangay r →
         brgy_municipality r' = brgy_municipality r) →
  JsMap.get (brgy_barangay r) (barangayToMunicipalityMap (reducedData data))
  = Some (brgy_municipality r).
Proof.
  intros Hr Huniq.
  pose proof (barangayToMunicipalityMap_get (reducedData data) (brgy_barangay r)) as H.
  destruct (JsMap.get (brgy_barangay r) _) as [m|].
  - destruct H as (l & Hl & Hb).
    apply elem_get_Some in Hl; [|apply reducedData_NoDup].
    pose proof (reducedData_get data m) as Hg. rewrite Hl in Hg.
    destruct Hg as (_ & _ & Hmem). apply Hmem in Hb as (r' & Hr' & <- & Hb).
    f_equal. by apply Huniq.
  - exfalso.
    pose proof (reducedData_get data (brgy_municipality r)) as Hg.
    destruct (JsMap.get (brgy_municipality r) (reducedData data)) as [l|] eqn:Hl.
    + destruct Hg as (_ & _ & Hmem). apply get_Some_elem in Hl.
      apply (H _ _ Hl). apply Hmem. by exists r.
    + by apply (Hg r Hr).
Qed.

(** An instance in the scenarios. *)
Lemma barangay_map_finds_the_municipality_witness :
  let r := {| brgy_municipality := "M1"; brgy_barangay := "B2" |} in
  r ∈ barangay_table
  ∧ (∀ r', r' ∈ barangay_table → brgy_barangay r' = brgy_barangay r →
           brgy_municipality r' = brgy_municipality r)
  ∧ JsMap.get "B2" (barangayToMunicipalityMap (reducedData barangay_table))
    = Some "M1".
Proof.
  intros r.
  assert (r ∈ barangay_table) as Hr by (right; left).
  assert (∀ r', r' ∈ barangay_table → brgy_barangay r' = brgy_barangay r →
            brgy_municipality r' = brgy_municipality r) as Huniq.
  { intros r' Hr' Hb. unfold barangay_table in Hr'. each_member Hr'; done. }
  split_and!; [done..|].
  exact (barangay_map_finds_the_municipality barangay_table r Hr Huniq).
Defined.

(** ** ResidentsPage: the pages *)

Lemma pages_concat {A} (l : list A) rows n :
  concat ((λ p, paginatedResidents l p rows) <$> seq 1 n) = take (n * rows) l.
Proof.
  induction n as [|n IH]; [done|].
  rewrite seq_S, fmap_app, concat_app, IH. cbn [fmap list_fmap concat].
  rewrite app_nil_r. unfold paginatedResidents.
  replace (1 + n - 1) with n by lia.
  rewrite take_take_drop. f_equal. lia.
Qed.

Lemma totalPages_enough {A} (l : list A) rows :
  0 < rows → length l ≤ totalPages l rows * rows.
Proof.
  intros Hrows. unfold totalPages.
  pose proof (Nat.div_mod (length l + rows - 1) rows ltac:(lia)) as Hdiv.
  pose proof (Nat.mod_upper_bound (length l + rows - 1) rows ltac:(lia)). nia.
Qed.

(** X23.  For a positive number of rows per page, the pages 1 to [totalPages] in
    order are the list: each holds at most that many rows, only the last can
    hold fewer, none of them is empty, and a page after them is. *)
Theorem pages_cover_the_list {A} (l : list A) rows :
  0 < rows →
  concat ((λ p, paginatedResidents l p rows) <$> seq 1 (totalPages l rows)) = l
  ∧ ∀ p, 1 ≤ p →
      (p < totalPages l rows → length (paginatedResidents l p rows) = rows)
      ∧ (p = totalPages l rows →
         0 < length (paginatedResidents l p rows) ≤ rows)
      ∧ (totalPages l rows < p → paginatedResidents l p rows = []).
Proof.
  intros Hrows. split.
  { rewrite pages_concat. by apply take_ge, totalPages_enough. }
  intros p Hp. unfold paginatedResidents.
  rewrite length_take, length_drop.
  pose proof (totalPages_enough l rows Hrows) as Hen.
  assert ((totalPages l rows - 1) * rows < length l ∨ totalPages l rows = 0) as Hlast.
  { unfold totalPages in *.
    pose proof (Nat.div_mod (length l + rows - 1) rows ltac:(lia)) as Hdiv.
    pose proof (Nat.mod_upper_bound (length l + rows - 1) rows ltac:(lia)).
    destruct ((length l + rows - 1) / rows) as [|q]; [by right|left]. nia. }
  split_and!.
  - intros Hlt. destruct Hlast as [Hlast|H0]; [|lia].
    assert ((p - 1) * rows + rows ≤ (totalPages l rows - 1) * rows).
    { replace ((p - 1) * rows + rows) with ((p - 1 + 1) * rows) by lia.
      apply Nat.mul_le_mono_r. lia. }
    lia.
  - intros ->. destruct Hlast as [Hlast|H0]; lia.
  - intros Hgt. apply length_zero_iff_nil. rewrite length_take, length_drop.
    assert (totalPages l rows * rows ≤ (p - 1) * rows)
      by (apply Nat.mul_le_mono_r; lia).
    lia.
Qed.

(** An instance in the scenarios. *)
Lemma pages_cover_the_list_witness :
  0 < 2
  ∧ concat ((λ p, paginatedResidents ["R1"; "R2"; "R3"] p 2)
              <$> seq 1 (totalPages ["R1"; "R2"; "R3"] 2))
    = ["R1"; "R2"; "R3"].
Proof.
  assert (0 < 2) as Hrows by lia.
  split; [done|].
  exact (proj1 (pages_cover_the_list ["R1"; "R2"; "R3"] 2 Hrows)).
Defined.

(** ** geminiService: incidents per barangay *)

Lemma barangayCounts_snoc incidents o :
  barangayCounts (incidents ++ [o]) = countStep (barangayCounts incidents) o.
Proof. unfold barangayCounts. by rewrite foldl_app. Qed.

Lemma barangayCounts_get incidents k :
  JsMap.get k (barangayCounts incidents)
  = let n := length (filter (λ o, o = Some k) (located incidents)) in
    if decide (n = 0) then None else Some n.
Proof.
  induction incidents as [|o incidents IH] using rev_ind; [done|].
  rewrite barangayCounts_snoc. unfold located in *.
  rewrite !filter_app, !length_app. cbn zeta in IH.
  unfold countStep. destruct o as [b|]; [|cbn; by rewrite Nat.add_0_r].
  destruct (truthy (Some b)) eqn:Ht.
  - rewrite (filter_cons_True (λ o, truthy o = true)) by done. rewrite filter_nil.
    destruct (decide (b = k)) as [->|Hne].
    + rewrite get_set_eq, IH. rewrite filter_cons_True by done.
      cbn [length filter]. cbn zeta.
      set (n := length (filter (λ o, o = Some k) _)).
      rewrite (decide_False (P := n + 1 = 0)) by lia.
      destruct (decide (n = 0)) as [->|_]; reflexivity.
    + rewrite get_set_ne by done. rewrite IH.
      rewrite filter_cons_False by congruence. cbn. by rewrite Nat.add_0_r.
  - rewrite (filter_cons_False (λ o, truthy o = true)) by congruence.
    cbn. by rewrite Nat.add_0_r.
Qed.

(** X24.  The incident counts per barangay: a barangay is listed exactly when an
    incident carries it, with the number of incidents that do; incidents
    without a location are counted nowhere, and the counts add up to the
    incidents that have one. *)
Theorem incident_counts_are_per_barangay incidents :
  NoDup (JsMap.keys (barangayCounts incidents))
  ∧ (∀ k n, JsMap.get k (barangayCounts incidents) = Some n
            ↔ 0 < n ∧ n = length (filter (λ o, o = Some k) (located incidents)))
  ∧ sum_list (JsMap.values (barangayCounts incidents)) = length (located incidents).
Proof.
  assert (NoDup (JsMap.keys (barangayCounts incidents))) as Hnd.
  { induction incidents as [|o incidents IH] using rev_ind; [constructor|].
    rewrite barangayCounts_snoc. unfold countStep.
    destruct o as [b|]; [|done]. destruct (truthy _); [|done].
    by apply NoDup_keys_set. }
  split_and!; [done| |].
  - intros k n. rewrite barangayCounts_get. cbn zeta. case_decide as H0.
    + split; [done|]. intros [? ?]. lia.
    + split; [intros [= <-]; lia|]. by intros [_ ->].
  - clear Hnd. induction incidents as [|o incidents IH] using rev_ind; [done|].
    rewrite barangayCounts_snoc. unfold located in *. rewrite filter_app, length_app.
    rewrite <-IH. unfold countStep. destruct o as [b|].
    2: { rewrite (filter_cons_False (λ o, truthy o = true)) by done. cbn. lia. }
    destruct (truthy (Some b)) eqn:Ht.
    + rewrite (filter_cons_True (λ o, truthy o = true)) by done. cbn [filter length].
      generalize (barangayCounts incidents). clear. intros m.
      unfold JsMap.values. induction m as [|[k' v'] m IHm]; cbn; [done|].
      destruct (decide (b = k')) as [->|]; cbn; [lia|]. rewrite IHm.
      destruct (JsMap.get b m); cbn; lia.
    + rewrite (filter_cons_False (λ o, truthy o = true)) by congruence. cbn. lia.
Qed.
